(** * RepoTree: the merged view over a working tree and a managed (DVC) tree

    A shallow embedding of [dvc/tree/repo.py].  The class [RepoTree] keeps a
    trie from paths to repo handles and an index from repo roots to managed
    trees; its methods mutate both.  Here the instance is a record that is
    passed through every method, exceptions are an explicit outcome, and a
    generator is the trace of what it yields.

    Collaborators that live in other modules ([BaseTree], [DvcTree], [Repo],
    [PathStringTrie], [is_valid_filename], ...) are records of functions or
    section variables: any conforming provider can be plugged in. *)

From Stdlib Require Import ZArith.
From stdpp Require Import base list strings gmap.

(** ** Paths *)

(** An absolute, normalised path is the list of its components below the
    filesystem root: [["r"; "sub"]] stands for [/r/sub] and [[]] for [/].
    On such paths [os.path.abspath] is the identity. *)
Abbreviation path := (list string) (only parsing).

(** [os.path.join(root, name)] for a single component [name]. *)
Definition join (root : path) (name : string) : path := root ++ [name].

(** [PathInfo(path).parents]: the proper ancestors, nearest first, the
    filesystem root last. *)
Definition parents (p : path) : list path :=
  (λ n, take n p) <$> reverse (seq 0 (length p)).

(** [itertools.takewhile]. *)
Fixpoint takewhile {A} (f : A → bool) (l : list A) : list A :=
  match l with
  | [] => []
  | x :: l' => if f x then x :: takewhile f l' else []
  end.

(** ** Exceptions and results *)

(** The exception classes the module raises, catches or lets through.
    [OSError] stands for any [OSError] that is neither of its two subclasses
    listed before it. *)
Inductive exn :=
  | FileNotFoundError
  | NotADirectoryError
  | OSError
  | ValueError
  | AssertionError
  | AttributeError
  | TypeError.

Global Instance exn_eq_dec : EqDecision exn.
Proof. solve_decision. Defined.

(** [isinstance(e, OSError)]. *)
Definition is_OSError (e : exn) : bool :=
  match e with
  | FileNotFoundError | NotADirectoryError | OSError => true
  | _ => false
  end.

(** What a call into a collaborator gives back. *)
Inductive result (A : Type) :=
  | Ok (a : A)
  | Err (e : exn).
Arguments Ok {A} a.
Arguments Err {A} e.

(** ** [stat] records *)

Record os_stat_result := { st_mode : Z }.

Definition S_IFMT (mode : Z) : Z := Z.land mode 61440.   (* 0o170000 *)
Definition S_IFDIR : Z := 16384.                         (* 0o040000 *)
Definition S_IFREG : Z := 32768.                         (* 0o100000 *)
Definition S_ISDIR (mode : Z) : bool := Z.eqb (S_IFMT mode) S_IFDIR.
Definition S_ISREG (mode : Z) : bool := Z.eqb (S_IFMT mode) S_IFREG.

(** ** Generators of directory walks *)

(** One step of a top-down walk: [(root, dirs, files)]. *)
Definition level : Type := path * list string * list string.

(** A walk generator as handed out by [tree.walk(top, topdown=True)].
    [next] on [Stop] raises [StopIteration]; on [Step root dirs files resume]
    it returns the triple, and the generator goes on as [resume dirs'] where
    [dirs'] is what the list object [dirs] holds when the generator is
    entered again: the caller steers the walk by assigning [dirs[:]]. *)
Inductive gen :=
  | Stop
  | Step (root : path) (dirs files : list string) (resume : list string → gen).

(** The levels of a walk that nobody steers ([yield from walk]). *)
Fixpoint levels (g : gen) : list level :=
  match g with
  | Stop => []
  | Step root dirs files resume => (root, dirs, files) :: levels (resume dirs)
  end.

(** ** The two tree interfaces and repo handles *)

Record Output := { out_path_info : path }.

Record BaseTree := {
  tree_exists : path → bool;
  tree_stat : path → result os_stat_result;
  tree_isdir : path → bool;          (* isdir(path, use_dvcignore=False) *)
  tree_isexec : path → bool;
  tree_info : path → result string;
  tree_open : path → result string;
  tree_walk : path → bool → gen;     (* walk(top, ignore_subrepos=...) *)
}.

Record Repo := {
  repo_id : nat;                     (* object identity, as its maker gave it *)
  root_dir : path;
  tree : BaseTree;
  dvc_dir : option path;             (* hasattr(repo, "dvc_dir") *)
}.

Record Metadata := {
  path_info : path;
  meta_repo : option Repo;
  isdir : bool;
  is_exec : bool;
  outs : list Output;
}.

(** [Metadata.isfile] is a property of [dvc/tree/_metadata.py]: the record is
    a file when it is not a directory. *)
Definition isfile (m : Metadata) : bool := negb (isdir m).

Record DvcTree := {
  dvc_metadata : path → result Metadata;
  dvc_exists : path → bool;
  dvc_isdvc : path → bool;
  dvc_isexec : path → bool;
  dvc_info : path → result string;
  dvc_open : path → result string;
  dvc_walk : path → gen;
}.

(** ** The instance *)

Record RepoTree := {
  repo_factory : path → Repo;
  _main_repo : Repo;
  _traverse_subrepos : bool;
  _subrepos_trie : gmap path Repo;
  _dvctrees : gmap path DvcTree;
  factory_calls : list path;         (* ghost: the directories the factory was called on *)
}.

(** Modelled from the spec: [PathStringTrie] of [dvc/utils/collections.py],
    "prefix-keyed mapping from path to repo handle; exact and longest-prefix
    lookup".  The mapping is a [gmap]; [longest_prefix] tries the key itself
    and then its ancestors, nearest first. *)
Fixpoint first_hit (t : gmap path Repo) (cands : list path) : option (path * Repo) :=
  match cands with
  | [] => None
  | q :: cands' =>
      match t !! q with
      | Some r => Some (q, r)
      | None => first_hit t cands'
      end
  end.

Definition longest_prefix (t : gmap path Repo) (p : path) : option (path * Repo) :=
  first_hit t (p :: parents p).

(** ** Effects *)

(** What a caller can observe of a generator while it runs: the levels it
    yields, and the calls it makes to the [onerror] callback it was given. *)
Definition callback := string.

Inductive event :=
  | Yield (l : level)
  | OnError (cb : callback) (e : exn) (arg : path).

(** How a run ends.  [OutOfFuel] is not a Python outcome: the recursion of
    the walk is bounded by a counter, and a run that uses it up is cut. *)
Inductive outcome (A : Type) :=
  | Done (a : A)
  | Raise (e : exn)
  | OutOfFuel.
Arguments Done {A} a.
Arguments Raise {A} e.
Arguments OutOfFuel {A}.

(** A method of the instance: it reads and writes [self], emits events, and
    ends with an outcome.  The events and the instance are kept whatever the
    outcome is, as in Python. *)
Definition M (A : Type) : Type := RepoTree → list event * RepoTree * outcome A.

Definition ret {A} (a : A) : M A := λ self, ([], self, Done a).

Definition bind {A B} (m : M A) (k : A → M B) : M B := λ self,
  let '(t1, self1, o) := m self in
  match o with
  | Done a => let '(t2, self2, o2) := k a self1 in (t1 ++ t2, self2, o2)
  | Raise e => (t1, self1, Raise e)
  | OutOfFuel => (t1, self1, OutOfFuel)
  end.

Definition raise {A} (e : exn) : M A := λ self, ([], self, Raise e).
Definition out_of_fuel {A} : M A := λ self, ([], self, OutOfFuel).
Definition emit (ev : event) : M unit := λ self, ([ev], self, Done tt).
Definition get_self : M RepoTree := λ self, ([], self, Done self).

(** A method that only touches the instance. *)
Definition lift {A} (f : RepoTree → A * RepoTree) : M A := λ self,
  let '(a, self') := f self in ([], self', Done a).

(** A call into a collaborator: its exception, if any, is raised here. *)
Definition call {A} (r : result A) : M A :=
  match r with
  | Ok a => ret a
  | Err e => raise e
  end.

Declare Scope repo_scope.
Delimit Scope repo_scope with repo.
Notation "'do' x <- m ; k" := (bind m (λ x, k))
  (at level 10, x name, m at level 100, k at level 200) : repo_scope.
Notation "'do' ' p <- m ; k" := (bind m (λ p, k))
  (at level 10, p pattern, m at level 100, k at level 200) : repo_scope.
Notation "m ;; k" := (bind m (λ _, k))
  (at level 100, k at level 200, right associativity) : repo_scope.
Local Open Scope repo_scope.

Definition trace_of {A} (r : list event * RepoTree * outcome A) : list event := r.1.1.
Definition self_of {A} (r : list event * RepoTree * outcome A) : RepoTree := r.1.2.
Definition outcome_of {A} (r : list event * RepoTree * outcome A) : outcome A := r.2.

(** [yield root, dirs, files]. *)
Definition yield (l : level) : M unit := emit (Yield l).

(** [yield from walk] for a walk that the consumer leaves alone. *)
Fixpoint yield_from (walk : gen) : M unit :=
  match walk with
  | Stop => ret tt
  | Step root dirs files resume =>
      yield (root, dirs, files);; yield_from (resume dirs)
  end.

(** [assert cond]. *)
Definition assert_ (cond : bool) : M unit :=
  if cond then ret tt else raise AssertionError.

(** [(x,) = xs]. *)
Definition unpack1 {A} (xs : list A) : M A :=
  match xs with
  | [x] => ret x
  | _ => raise ValueError
  end.

(** [with suppress(FileNotFoundError): x = r], with [x = None] before. *)
Definition suppress_FileNotFoundError {A} (r : result A) : M (option A) :=
  match r with
  | Ok a => ret (Some a)
  | Err FileNotFoundError => ret None
  | Err e => raise e
  end.

(** [for x in xs: body], the loop passing on what the body leaves behind. *)
Fixpoint for_each {A S} (xs : list A) (body : A → S → M S) (s : S) : M S :=
  match xs with
  | [] => ret s
  | x :: xs' => do s' <- body x s; for_each xs' body s'
  end.

(** ** A small world to run the model in *)

(** Two directory listings, one for the disk and one for the managed layer,
    and the trees, repos and factory built on them.  The disk holds [/r] with
    a subrepo at [/r/sub]; the managed layer of [/r] knows [/r/both] (also on
    disk), [/r/data] (never checked out) and a single-file output [/r/out]
    that the disk has as a directory. *)
Module World.

Local Open Scope string_scope.

Definition listing : Type := list (path * (list string * list string)).

Fixpoint ls (fs : listing) (p : path) : option (list string * list string) :=
  match fs with
  | [] => None
  | (q, entries) :: fs' => if bool_decide (q = p) then Some entries else ls fs' p
  end.

(** An [os.walk]-like generator over a listing: after a level is handed out,
    the walk descends into the names left in its list of directories, in that
    order, and then goes on with [rest]. *)
Fixpoint fs_walk (depth : nat) (fs : listing) (top : path) (rest : gen) : gen :=
  match depth with
  | 0 => rest
  | S depth' =>
      match ls fs top with
      | None => rest
      | Some (dirs, files) =>
          Step top dirs files
            (λ dirs', foldr (λ d acc, fs_walk depth' fs (join top d) acc) rest dirs')
      end
  end.

Definition fs_isdir (fs : listing) (p : path) : bool := bool_decide (is_Some (ls fs p)).

Definition fs_isfile (fs : listing) (p : path) : bool :=
  match reverse p with
  | [] => false
  | name :: rev_parent =>
      match ls fs (reverse rev_parent) with
      | Some (_, files) => bool_decide (name ∈ files)
      | None => false
      end
  end.

Definition fs_exists (fs : listing) (p : path) : bool := fs_isdir fs p || fs_isfile fs p.

Definition fs_stat (fs : listing) (p : path) : result os_stat_result :=
  if fs_isdir fs p then Ok {| st_mode := 16877 |}            (* 0o040755 *)
  else if fs_isfile fs p then Ok {| st_mode := 33188 |}      (* 0o100644 *)
  else Err FileNotFoundError.

Definition fs_read (fs : listing) (p : path) : result string :=
  if fs_exists fs p then Ok (default "/" (last p)) else Err FileNotFoundError.

Definition disk : listing :=
  [ (["r"], (["both"; "out"; "sub"; "work"], ["a.txt"; "dvc.yaml"; ".dvcignore"; "odd"]));
    (["r"; "both"], ([], ["b.txt"; "both.dvc"]));
    (["r"; "out"], ([], []));
    (["r"; "work"], ([], ["w.txt"]));
    (["r"; "sub"], ([".dvc"], ["inner.txt"]));
    (["r"; "sub"; ".dvc"], ([], [])) ].

Definition work_tree : BaseTree :=
  {| tree_exists := fs_exists disk;
     tree_stat := fs_stat disk;
     tree_isdir := fs_isdir disk;
     tree_isexec := λ _, false;
     tree_info := fs_read disk;
     tree_open := fs_read disk;
     tree_walk := λ top _, fs_walk 8 disk top Stop |}.

Definition main_repo : Repo :=
  {| repo_id := 0; root_dir := ["r"]; tree := work_tree; dvc_dir := Some ["r"; ".dvc"] |}.

(** The same project without a managed layer: a plain git repo. *)
Definition git_repo : Repo :=
  {| repo_id := 0; root_dir := ["r"]; tree := work_tree; dvc_dir := None |}.

Definition factory (d : path) : Repo :=
  {| repo_id := length d; root_dir := d; tree := work_tree; dvc_dir := Some (join d ".dvc") |}.

Definition managed_main : listing :=
  [ (["r"], (["both"; "data"], ["out"]));
    (["r"; "both"], ([], ["b.txt"; "m.bin"]));
    (["r"; "data"], ([], ["x.bin"; "dvc.yaml"])) ].

Definition managed_sub : listing :=
  [ (["r"; "sub"], ([], ["s.bin"])) ].

Definition meta (p : path) (dir : bool) (roots : list path) : Metadata :=
  {| path_info := p; meta_repo := None; isdir := dir; is_exec := false;
     outs := (λ q, {| out_path_info := q |}) <$> roots |}.

(** The metadata of the managed layer of [/r].  [/r/odd] and [/r/odd2] stand
    for a damaged index: no output covers them. *)
Definition main_metadata (p : path) : result Metadata :=
  if bool_decide (p = ["r"; "data"]) then Ok (meta p true [["r"; "data"]])
  else if bool_decide (p = ["r"; "data"; "x.bin"]) then Ok (meta p false [["r"; "data"]])
  else if bool_decide (p = ["r"; "data"; "dvc.yaml"]) then Ok (meta p false [["r"; "data"]])
  else if bool_decide (p = ["r"; "both"]) then Ok (meta p true [["r"; "both"]])
  else if bool_decide (p = ["r"; "both"; "m.bin"]) then Ok (meta p false [["r"; "both"]])
  else if bool_decide (p = ["r"; "out"]) then Ok (meta p false [["r"; "out"]])
  else if bool_decide (p = ["r"; "odd"]) then Ok (meta p false [])
  else if bool_decide (p = ["r"; "odd2"]) then Ok (meta p false [])
  else Err FileNotFoundError.

Definition dvc_tree_on (fs : listing) (md : path → result Metadata) : DvcTree :=
  {| dvc_metadata := md;
     dvc_exists := fs_exists fs;
     dvc_isdvc := λ p, match md p with
                       | Ok m => bool_decide (out_path_info <$> outs m = [p])
                       | Err _ => false
                       end;
     dvc_isexec := λ _, false;
     dvc_info := fs_read fs;
     dvc_open := fs_read fs;
     dvc_walk := λ top, fs_walk 8 fs top Stop |}.

Definition new_DvcTree (repo : Repo) : DvcTree :=
  if bool_decide (root_dir repo = ["r"]) then dvc_tree_on managed_main main_metadata
  else dvc_tree_on managed_sub (λ _, Err FileNotFoundError).

Definition DVC_DIR : string := ".dvc".
Definition DVCIGNORE_FILE : string := ".dvcignore".

(** [dvc.yaml], [Dvcfile] and every name ending in [.dvc]. *)
Definition is_valid_filename (fname : string) : bool :=
  bool_decide (fname = "dvc.yaml") || bool_decide (fname = "Dvcfile")
  || bool_decide (String.substring (String.length fname - 4) 4 fname = ".dvc").

Definition mode_is_exec (mode : Z) : bool := negb (Z.eqb (Z.land mode 73) 0).  (* 0o111 *)

(** One admissible enumeration of a set: first occurrences, in order. *)
Definition list_of_set (l : list string) : list string := remove_dups l.

(** The instance [RepoTree(main_repo, subrepos=True, repo_factory=factory)]
    and its git-only sibling, as the constructor leaves them. *)
Definition self0 : RepoTree :=
  {| repo_factory := factory;
     _main_repo := main_repo;
     _traverse_subrepos := true;
     _subrepos_trie := {[ ["r"] := main_repo ]};
     _dvctrees := {[ ["r"] := new_DvcTree main_repo ]};
     factory_calls := [] |}.

Definition git_self0 : RepoTree :=
  {| repo_factory := factory;
     _main_repo := git_repo;
     _traverse_subrepos := false;
     _subrepos_trie := {[ ["r"] := git_repo ]};
     _dvctrees := ∅;
     factory_calls := [] |}.

(** A working tree that hides [/r/both] from [exists], as an ignore rule
    does, while its [stat] and its walk, asked for the directory itself,
    still see it; and the instance of a repo on that tree. *)
Definition hiding_tree : BaseTree :=
  {| tree_exists := λ p, fs_exists disk p && negb (bool_decide (take 2 p = ["r"; "both"]));
     tree_stat := fs_stat disk;
     tree_isdir := fs_isdir disk;
     tree_isexec := λ _, false;
     tree_info := fs_read disk;
     tree_open := fs_read disk;
     tree_walk := λ top _, fs_walk 8 disk top Stop |}.

Definition hiding_repo : Repo :=
  {| repo_id := 0; root_dir := ["r"]; tree := hiding_tree; dvc_dir := Some ["r"; ".dvc"] |}.

Definition hiding_self0 : RepoTree :=
  {| repo_factory := factory;
     _main_repo := hiding_repo;
     _traverse_subrepos := false;
     _subrepos_trie := {[ ["r"] := hiding_repo ]};
     _dvctrees := {[ ["r"] := new_DvcTree hiding_repo ]};
     factory_calls := [] |}.

End World.

(** * Reading and writing data files

    A shallow embedding of [dvc/utils/serialize/_common.py].  Files live in
    flat stores of bytes, one for the built-in [open] and one for each
    [FileSystem] object; the codec, the parser and the dumpers are handed
    in, as in the source. *)
Module Serialize.

Local Open Scope string_scope.

(** [ParseError] and its subclass [EncodingError]: the attributes [path]
    and, for the subclass, [encoding], and the message passed on to
    [DvcException]. *)
Record ParseErrorData := {
  pe_path : string;
  pe_encoding : option string;
  pe_message : string;
}.

Inductive exc :=
  | FileNotFound (path : string)
  | UnicodeDecodeError
  | ParseError (d : ParseErrorData)
  | OtherError (name : string).

Inductive res (A : Type) :=
  | Returned (a : A)
  | Raised (e : exc).
Arguments Returned {A} a.
Arguments Raised {A} e.

Abbreviation store := (gmap string (list Byte.byte)) (only parsing).

(** The stores: [fs] is [None] for the built-in [open] and [os.path], and
    the name of the [FileSystem] object otherwise. *)
Record world := {
  builtin : store;
  mounted : gmap string store;
}.

Definition store_of (w : world) (fs : option string) : store :=
  match fs with
  | None => builtin w
  | Some name => default ∅ (mounted w !! name)
  end.

Definition set_store (w : world) (fs : option string) (s : store) : world :=
  match fs with
  | None => {| builtin := s; mounted := mounted w |}
  | Some name => {| builtin := builtin w; mounted := <[ name := s ]> (mounted w) |}
  end.

Section Common.

(** [dvc.utils.relpath]; the text mode of the file objects, opened with
    [encoding="utf-8"]: [decode] is what [fd.read()] makes of the bytes of a
    file (decoding and the translation of newlines; [None] is
    [UnicodeDecodeError]) and [encode] the bytes that writing a text leaves;
    the type of the data and its empty dictionary [{}]. *)
Variable relpath : string → string.
Variable decode : list Byte.byte → option string.
Variable encode : string → list Byte.byte.
Variable D : Type.
Variable empty_dict : D.

(** [open_fn(path, "w+", encoding="utf-8")]: the exception it raises when
    the file system does not let the file be made or emptied (no parent
    directory, a directory at the path, no permission), [None] when it opens
    the file.  A file that does not open is left as it is. *)
Variable open_for_writing : option string → string → world → option exc.

(** [ParseError(path, message)]. *)
Definition new_ParseError (path message : string) : exc :=
  ParseError {| pe_path := relpath path;
                pe_encoding := None;
                pe_message := "unable to read: '" ++ relpath path ++ "', " ++ message |}.

(** [EncodingError(path, encoding)]. *)
Definition new_EncodingError (path encoding : string) : exc :=
  ParseError {| pe_path := relpath path;
                pe_encoding := Some encoding;
                pe_message := "unable to read: '" ++ relpath path ++ "', "
                              ++ ("is not valid " ++ encoding) |}.

(** [with reraise(UnicodeDecodeError, into): ...]. *)
Definition reraise_UnicodeDecodeError {A} (into : exc) (body : res A) : res A :=
  match body with
  | Raised UnicodeDecodeError => Raised into
  | _ => body
  end.

(** [fd.read()] on a file opened for reading as text. *)
Definition read_text (content : list Byte.byte) : res string :=
  match decode content with
  | Some text => Returned text
  | None => Raised UnicodeDecodeError
  end.

Definition _load_data (path : string) (parser : string → string → res D)
    (fs : option string) (w : world) : res D :=
  let encoding := "utf-8" in
  match store_of w fs !! path with
  | None => Raised (FileNotFound path)
  | Some content =>
      reraise_UnicodeDecodeError (new_EncodingError path encoding)
        match read_text content with
        | Returned text => parser text path
        | Raised e => Raised e
        end
  end.

(** The dumper of [_dump_data] writes to the open file: it is given by the
    text it writes and the exception it ends with, if any.  When the open
    raises, the dumper is not called.  Opening with ["w+"] empties the file,
    and leaving the [with] block closes it with what was written, whether
    the dumper raised or not. *)
Definition _dump_data (path : string) (data : D) (dumper : D → string * option exc)
    (fs : option string) (w : world) : res unit * world :=
  match open_for_writing fs path w with
  | Some e => (Raised e, w)
  | None =>
      let '(text, raised) := dumper data in
      let w' := set_store w fs (<[ path := encode text ]> (store_of w fs)) in
      match raised with
      | None => (Returned tt, w')
      | Some e => (Raised e, w')
      end
  end.

(** [_modify_data] is a context manager: [block] is the body of the [with]
    statement, which gets the data and leaves it changed, or raises; it is
    taken to touch nothing but the data.  The dumper here is the one of the
    format, called with the path. *)
Definition _modify_data (path : string) (parser : string → string → res D)
    (dumper : string → D → option string → world → res unit * world)
    (fs : option string) (block : D → res D) (w : world) : res unit * world :=
  let file_exists := bool_decide (is_Some (store_of w fs !! path)) in
  match (if file_exists then _load_data path parser fs w else Returned empty_dict) with
  | Raised e => (Raised e, w)
  | Returned data =>
      match block data with
      | Raised e => (Raised e, w)
      | Returned data' => dumper path data' fs w
      end
  end.

End Common.

(** Reading in text mode gives a newline for a carriage return, with or
    without a newline after it. *)
Fixpoint universal_newlines (s : string) : string :=
  match s with
  | EmptyString => EmptyString
  | String c s' =>
      if Ascii.eqb c (Ascii.ascii_of_nat 13) then
        String (Ascii.ascii_of_nat 10)
          match s' with
          | EmptyString => EmptyString
          | String c' s'' =>
              if Ascii.eqb c' (Ascii.ascii_of_nat 10) then universal_newlines s'' else universal_newlines s'
          end
      else String c (universal_newlines s')
  end.

(** A stand-in for the text mode of the file objects, with every byte taken
    as a character where the code decodes UTF-8; a file system whose only
    directory is its root, so that a path with a slash in it has no directory
    to be made in; and a store with one file, to run the three functions
    on. *)
Definition latin_decode (content : list Byte.byte) : option string :=
  Some (universal_newlines (String.string_of_list_byte content)).

Definition flat_open_for_writing (fs : option string) (path : string) (w : world)
  : option exc :=
  match String.index 0 "/" path with
  | Some _ => Some (FileNotFound path)
  | None => None
  end.

Definition latin_encode (text : string) : list Byte.byte := String.list_byte_of_string text.

Definition params_world : world :=
  {| builtin := {[ "params.yaml" := String.list_byte_of_string "lr: 1" ]}; mounted := ∅ |}.

End Serialize.

Section RepoTree.

(** [DvcTree(repo)], [Repo.DVC_DIR], [dvc.dvcfile.is_valid_filename],
    [DvcIgnore.DVCIGNORE_FILE] and [dvc.utils.is_exec] come from modules that
    are not part of this file. *)
Variable new_DvcTree : Repo → DvcTree.
Variable DVC_DIR : string.
Variable is_valid_filename : string → bool.
Variable DVCIGNORE_FILE : string.
Variable mode_is_exec : Z → bool.

(** [list(s)] for a Python set [s], given the elements as a list: some
    enumeration of the distinct elements, in an order the language leaves
    open. *)
Variable list_of_set : list string → list string.
Hypothesis list_of_set_perm : ∀ l, list_of_set l ≡ₚ remove_dups l.

(** *** Construction *)

Definition __init__ (repo : Repo) (subrepos : bool) (factory : path → Repo) : RepoTree :=
  {| repo_factory := factory;
     _main_repo := repo;
     _traverse_subrepos := subrepos;
     _subrepos_trie := {[ root_dir repo := repo ]};
     _dvctrees :=
       match dvc_dir repo with
       | Some _ => {[ root_dir repo := new_DvcTree repo ]}
       | None => ∅
       end;
     factory_calls := [] |}.

(** *** Resolution of a path to its repo *)

Definition _is_dvc_repo (self : RepoTree) (dir_path : path) : bool :=
  if negb (_traverse_subrepos self) then false
  else tree_isdir (tree (_main_repo self)) (join dir_path DVC_DIR).

(** One turn of the loop of [_update]: the running handle and the instance. *)
Definition _update_step (d : path) (acc : Repo * RepoTree) : Repo * RepoTree :=
  let '(repo, self) := acc in
  if _is_dvc_repo self d then
    let repo' := repo_factory self d in
    (repo',
     {| repo_factory := repo_factory self;
        _main_repo := _main_repo self;
        _traverse_subrepos := _traverse_subrepos self;
        _subrepos_trie := <[ d := repo' ]> (_subrepos_trie self);
        _dvctrees := <[ root_dir repo' := new_DvcTree repo' ]> (_dvctrees self);
        factory_calls := factory_calls self ++ [d] |})
  else
    (repo,
     {| repo_factory := repo_factory self;
        _main_repo := _main_repo self;
        _traverse_subrepos := _traverse_subrepos self;
        _subrepos_trie := <[ d := repo ]> (_subrepos_trie self);
        _dvctrees := _dvctrees self;
        factory_calls := factory_calls self |}).

Definition _update (dirs : list path) (starting_repo : Repo) (self : RepoTree) : RepoTree :=
  snd (fold_left (λ acc d, _update_step d acc) dirs (starting_repo, self)).

Definition _get_repo (p : path) (self : RepoTree) : option Repo * RepoTree :=
  match _subrepos_trie self !! p with
  | Some repo => (Some repo, self)
  | None =>
      match longest_prefix (_subrepos_trie self) p with
      | None => (None, self)
      | Some (prefix, repo) =>
          let dirs :=
            reverse (p :: takewhile (λ q, negb (bool_decide (q = prefix))) (parents p)) in
          let self' := _update dirs repo self in
          (_subrepos_trie self' !! p, self')
      end
  end.

Definition _get_tree_pair (p : path) (self : RepoTree)
  : (BaseTree * option DvcTree) * RepoTree :=
  let '(found, self') := _get_repo p self in
  let repo := default (_main_repo self') found in
  ((tree repo, _dvctrees self' !! root_dir repo), self').

(** *** Existence and kind of a path *)

Definition exists_ (p : path) : M bool :=
  do '(tree, dvc_tree) <- lift (_get_tree_pair p);
  match dvc_tree with
  | None => ret (tree_exists tree p)
  | Some dvc_tree =>
      if tree_exists tree p then ret true
      else
        match dvc_metadata dvc_tree p with
        | Err FileNotFoundError => ret false
        | Err e => raise e
        | Ok meta =>
            do out <- unpack1 (outs meta);
            assert_ (bool_decide (length (outs meta) = 1));;
            if tree_exists tree (out_path_info out) then ret false
            else ret true
        end
  end.

Definition isdir_ (p : path) : M bool :=
  do '(tree, dvc_tree) <- lift (_get_tree_pair p);
  match tree_stat tree p with
  | Ok st => ret (S_ISDIR (st_mode st))
  | Err e =>
      if negb (is_OSError e || bool_decide (e = ValueError)) then raise e
      else
        match dvc_tree with
        | None => ret false
        | Some dvc_tree =>
            match dvc_metadata dvc_tree p with
            | Err FileNotFoundError => ret false
            | Err e => raise e
            | Ok meta =>
                do out <- unpack1 (outs meta);
                assert_ (bool_decide (length (outs meta) = 1));;
                if tree_exists tree (out_path_info out) then ret false
                else ret (isdir meta)
            end
        end
  end.

Definition isfile_ (p : path) : M bool :=
  do '(tree, dvc_tree) <- lift (_get_tree_pair p);
  match tree_stat tree p with
  | Ok st => ret (S_ISREG (st_mode st))
  | Err e =>
      if negb (is_OSError e || bool_decide (e = ValueError)) then raise e
      else
        match dvc_tree with
        | None => ret false
        | Some dvc_tree =>
            match dvc_metadata dvc_tree p with
            | Err FileNotFoundError => ret false
            | Err e => raise e
            | Ok meta =>
                do out <- unpack1 (outs meta);
                assert_ (bool_decide (length (outs meta) = 1));;
                if tree_exists tree (out_path_info out) then ret false
                else ret (isfile meta)
            end
        end
  end.

Definition isdvc (p : path) : M bool :=
  do '(_, dvc_tree) <- lift (_get_tree_pair p);
  match dvc_tree with
  | None => ret false
  | Some dvc_tree => ret (dvc_isdvc dvc_tree p)
  end.

Definition isexec (p : path) : M bool :=
  do '(tree, dvc_tree) <- lift (_get_tree_pair p);
  match dvc_tree with
  | Some dvc_tree =>
      if dvc_exists dvc_tree p then ret (dvc_isexec dvc_tree p)
      else ret (tree_isexec tree p)
  | None => ret (tree_isexec tree p)
  end.

Definition stat (p : path) : M os_stat_result :=
  do '(tree, _) <- lift (_get_tree_pair p);
  call (tree_stat tree p).

Definition open_ (p : path) : M string :=
  do '(tree, dvc_tree) <- lift (_get_tree_pair p);
  match tree_open tree p with
  | Ok f => ret f
  | Err FileNotFoundError =>
      match dvc_tree with
      | None => raise FileNotFoundError
      | Some dvc_tree => call (dvc_open dvc_tree p)
      end
  | Err e => raise e
  end.

(** *** Metadata and info *)

Definition metadata (p : path) : M Metadata :=
  do '(tree, dvc_tree) <- lift (_get_tree_pair p);
  do dvc_meta <-
    match dvc_tree with
    | Some dvc_tree => suppress_FileNotFoundError (dvc_metadata dvc_tree p)
    | None => ret None
    end;
  do stat_result <- suppress_FileNotFoundError (tree_stat tree p);
  match stat_result, dvc_meta with
  | None, None => raise FileNotFoundError
  | _, _ =>
    do meta <-
      match dvc_meta with
      | Some m => ret m
      | None =>
          do found <- lift (_get_repo p);
          do self <- get_self;
          ret {| path_info := p;
                 meta_repo := Some (default (_main_repo self) found);
                 isdir := false; is_exec := false; outs := [] |}
      end;
    let isdir' :=
      match stat_result with
      | Some st => S_ISDIR (st_mode st)
      | None => false
      end in
    let meta := {| path_info := path_info meta; meta_repo := meta_repo meta;
                   isdir := isdir meta || isdir';
                   is_exec := is_exec meta; outs := outs meta |} in
    match dvc_meta with
    | Some _ => ret meta
    | None =>
        ret {| path_info := path_info meta; meta_repo := meta_repo meta;
               isdir := isdir meta;
               is_exec :=
                 match stat_result with
                 | Some st => mode_is_exec (st_mode st)
                 | None => false
                 end;
               outs := outs meta |}
    end
  end.

(** [dvc_tree.info] on a [dvc_tree] that is [None] is an attribute lookup on
    [None]. *)
Definition info (p : path) : M string :=
  do '(tree, dvc_tree) <- lift (_get_tree_pair p);
  match tree_info tree p with
  | Ok i => ret i
  | Err FileNotFoundError =>
      match dvc_tree with
      | Some dvc_tree => call (dvc_info dvc_tree p)
      | None => raise AttributeError
      end
  | Err e => raise e
  end.

(** *** The merged walk *)

(** [next(walk)] on a generator that may be [None]. *)
Fixpoint _dvc_walk (fuel : nat) (walk : option gen) : M (option gen) :=
  match fuel with
  | 0 => out_of_fuel
  | S fuel' =>
      match walk with
      | None => raise TypeError
      | Some Stop => ret walk
      | Some (Step root dirs files resume) =>
          yield (root, dirs, files);;
          for_each dirs (λ _ walk, _dvc_walk fuel' walk) (Some (resume dirs))
      end
  end.

(** [next(dvc_walk) if dvc_walk else (None, [], [])]: the child directories,
    the file names, and how the generator goes on once its list of
    directories is set; [None] is [StopIteration]. *)
Definition next_dvc (dvc_walk : option gen)
  : option (list string * list string * (list string → option gen)) :=
  match dvc_walk with
  | None => Some ([], [], λ _, None)
  | Some Stop => None
  | Some (Step _ dvc_dirs dvc_fnames resume) =>
      Some (dvc_dirs, dvc_fnames, λ dirs, Some (resume dirs))
  end.

(** [_func] of [_walk]. *)
Definition _func (dvcfiles : bool) (fname : string) : bool :=
  if dvcfiles then true
  else negb (is_valid_filename fname || bool_decide (fname = DVCIGNORE_FILE)).

(** The body of [_subrepo_walk], with the merge it starts passed in. *)
Definition _subrepo_walk_with
    (merge : gen → option gen → bool → M (gen * option gen))
    (dir_path : path) (dvcfiles : bool) : M unit :=
  do '(tree, dvc_tree) <- lift (_get_tree_pair dir_path);
  do self <- get_self;
  let tree_walk := tree_walk tree dir_path (negb (_traverse_subrepos self)) in
  let dvc_walk :=
    match dvc_tree with
    | Some dvc_tree => Some (dvc_walk dvc_tree dir_path)
    | None => None
    end in
  merge tree_walk dvc_walk dvcfiles;; ret tt.

(** [_walk] returns the two generators as it leaves them: they are objects
    shared with the caller.  The consumer of the walk is taken to leave the
    list of directories of a yielded level as it got it. *)
Fixpoint _walk (fuel : nat) (repo_walk : gen) (dvc_walk : option gen) (dvcfiles : bool)
  : M (gen * option gen) :=
  match fuel with
  | 0 => out_of_fuel
  | S fuel' =>
      match next_dvc dvc_walk with
      | None => ret (repo_walk, dvc_walk)
      | Some (dvc_dirs, dvc_fnames, dvc_resume) =>
          match repo_walk with
          | Stop => ret (repo_walk, dvc_resume dvc_dirs)
          | Step repo_root repo_dirs repo_fnames repo_resume =>
              let dvc_set := dvc_dirs in
              let repo_set := repo_dirs in
              let dvc_only := list_of_set (list_difference dvc_set repo_set) in
              let repo_only := list_of_set (list_difference repo_set dvc_set) in
              let shared := list_of_set (list_intersection dvc_set repo_set) in
              let dirs := shared ++ dvc_only ++ repo_only in
              let files := List.filter (_func dvcfiles) (dvc_fnames ++ repo_fnames) in
              yield (repo_root, dirs, list_of_set files);;
              do self <- get_self;
              let is_dvc_repo d := _is_dvc_repo self (join repo_root d) in
              let subrepos := List.filter is_dvc_repo repo_only in
              let dvc_dirs' := List.filter (λ d, bool_decide (d ∈ dvc_set)) dirs in
              let repo_dirs' :=
                List.filter (λ d, bool_decide (d ∈ list_difference repo_set subrepos)) dirs in
              for_each dirs
                (λ dirname '(repo_walk, dvc_walk),
                   if bool_decide (dirname ∈ subrepos) then
                     _subrepo_walk_with (_walk fuel') (join repo_root dirname) dvcfiles;;
                     ret (repo_walk, dvc_walk)
                   else if bool_decide (dirname ∈ shared) then
                     _walk fuel' repo_walk dvc_walk dvcfiles
                   else if bool_decide (dirname ∈ dvc_set) then
                     do dvc_walk' <- _dvc_walk fuel' dvc_walk;
                     ret (repo_walk, dvc_walk')
                   else if bool_decide (dirname ∈ repo_set) then
                     do '(repo_walk', _) <- _walk fuel' repo_walk None dvcfiles;
                     ret (repo_walk', dvc_walk)
                   else ret (repo_walk, dvc_walk))
                (repo_resume repo_dirs', dvc_resume dvc_dirs')
          end
      end
  end.

Definition _subrepo_walk (fuel : nat) (dir_path : path) (dvcfiles : bool) : M unit :=
  _subrepo_walk_with (_walk fuel) dir_path dvcfiles.

(** [onerror(exc(top))] when a callback was given. *)
Definition call_onerror (onerror : option callback) (e : exn) (top : path) : M unit :=
  match onerror with
  | Some cb => emit (OnError cb e top)
  | None => ret tt
  end.

Definition walk (fuel : nat) (top : path) (topdown : bool) (onerror : option callback)
    (dvcfiles : bool) (follow_subrepos : option bool) : M unit :=
  assert_ topdown;;
  do top_exists <- exists_ top;
  if negb top_exists then call_onerror onerror FileNotFoundError top
  else
    do top_isdir <- isdir_ top;
    if negb top_isdir then call_onerror onerror NotADirectoryError top
    else
      do self <- get_self;
      let ignore_subrepos :=
        match follow_subrepos with
        | Some follow => negb follow
        | None => negb (_traverse_subrepos self)
        end in
      do '(tree, dvc_tree) <- lift (_get_tree_pair top);
      let repo_exists := tree_exists tree top in
      let repo_walk := tree_walk tree top ignore_subrepos in
      match dvc_tree with
      | None => _walk fuel repo_walk None dvcfiles;; ret tt
      | Some dvc_tree =>
          if repo_exists && dvc_isdvc dvc_tree top then
            _walk fuel repo_walk None dvcfiles;; ret tt
          else
            (if negb repo_exists then yield_from (dvc_walk dvc_tree top) else ret tt);;
            let dvc_walk :=
              if dvc_exists dvc_tree top then Some (dvc_walk dvc_tree top) else None in
            _walk fuel repo_walk dvc_walk dvcfiles;; ret tt
      end.

(** The levels among the events of a run. *)
Definition yielded (t : list event) : list level :=
  omap (λ ev, match ev with Yield l => Some l | OnError _ _ _ => None end) t.

(** *** The four ways the walk goes into a child directory *)

(** Named after the partition of the spec; each takes the directory name and
    the pair of generators of the level, and leaves the pair as the recursion
    left it. *)





(** *** What stays in the trie *)

(** Every entry of the trie of [self] is still there, unchanged, in [self']. *)
Definition trie_kept (self self' : RepoTree) : Prop :=
  ∀ q r, _subrepos_trie self !! q = Some r → _subrepos_trie self' !! q = Some r.

(** A method that, however it ends, leaves every entry of the trie in place. *)
Definition keeps_trie {A} (m : M A) : Prop :=
  ∀ self, trie_kept self (self_of (m self)).

(** *** What a method leaves of the instance *)

(** The fields that are set at construction. *)
Definition same_config (self self' : RepoTree) : Prop :=
  repo_factory self' = repo_factory self
  ∧ _main_repo self' = _main_repo self
  ∧ _traverse_subrepos self' = _traverse_subrepos self.

(** Every path the trie knows is mapped to the main repo. *)
Definition only_main (self : RepoTree) : Prop :=
  ∀ q r, _subrepos_trie self !! q = Some r → r = _main_repo self.

(** From [self] to [self'] the configuration is the same and, if subrepos
    are not traversed, the factory was not called, the index of managed
    trees is the same, and a trie that only knew the main repo still does. *)
Definition settled (self self' : RepoTree) : Prop :=
  same_config self self'
  ∧ (_traverse_subrepos self = false →
     factory_calls self' = factory_calls self
     ∧ _dvctrees self' = _dvctrees self
     ∧ (only_main self → only_main self')).

(** A method whose runs all take the instance to a related one. *)
Definition kept (R : RepoTree → RepoTree → Prop) {A} (m : M A) : Prop :=
  ∀ self, R self (self_of (m self)).

(** A run that does not end in an exception. *)
Definition no_raise {A} (o : outcome A) : Prop :=
  match o with
  | Raise _ => False
  | _ => True
  end.

(** The factory calls and the index of managed trees are those of [self]. *)
Definition undisturbed (self self' : RepoTree) : Prop :=
  factory_calls self' = factory_calls self ∧ _dvctrees self' = _dvctrees self.

(** What the managed side answers in [exists], [isdir] and [isfile], the
    code the three share: [flag] is what the metadata says when its one
    output is not shadowed. *)
Definition managed_answer (tree : BaseTree) (managed : DvcTree) (p : path)
    (flag : Metadata → bool) (self : RepoTree) : list event * RepoTree * outcome bool :=
  match dvc_metadata managed p with
  | Ok meta =>
      match outs meta with
      | [out] =>
          ([], self, Done (if tree_exists tree (out_path_info out) then false else flag meta))
      | _ => ([], self, Raise ValueError)
      end
  | Err FileNotFoundError => ([], self, Done false)
  | Err e => ([], self, Raise e)
  end.

(** What [isdir] and [isfile] answer, the code the two share: [kind] is the
    test on the mode of a successful [stat]. *)
Definition kind_answer (tree : BaseTree) (dvc_tree : option DvcTree) (p : path)
    (kind : Z → bool) (flag : Metadata → bool) (self : RepoTree)
  : list event * RepoTree * outcome bool :=
  match tree_stat tree p with
  | Ok st => ([], self, Done (kind (st_mode st)))
  | Err e =>
      if negb (is_OSError e || bool_decide (e = ValueError)) then ([], self, Raise e)
      else
        match dvc_tree with
        | None => ([], self, Done false)
        | Some managed => managed_answer tree managed p flag self
        end
  end.

(** What a run of [_dvc_walk], or of its loop, makes of a generator [g]:
    the instance is left alone, the levels yielded are the first levels of
    [g] as they come, no exception is raised, and a run that ends leaves a
    generator that holds the rest. *)
Definition passes_through (g : gen) (self : RepoTree)
    (r : list event * RepoTree * outcome (option gen)) : Prop :=
  self_of r = self
  ∧ ∃ ls, trace_of r = Yield <$> ls
          ∧ match outcome_of r with
            | Done w => ∃ h, w = Some h ∧ levels g = ls ++ levels h
            | Raise _ => False
            | OutOfFuel => ls `prefix_of` levels g
            end.

(** ** Resolution is idempotent and the trie only grows *)

Lemma first_hit_takewhile t cands q r :
  first_hit t cands = Some (q, r) →
  ∀ d, d ∈ takewhile (λ c, negb (bool_decide (c = q))) cands → t !! d = None.
Proof.
  induction cands as [|c cands IH]; simpl; [done|].
  destruct (t !! c) as [rc|] eqn:Hc.
  - intros [= -> ->] d. rewrite bool_decide_eq_true_2 by done. simpl.
    by intros ?%elem_of_nil.
  - intros Hhit d. case_bool_decide as Hcq; simpl.
    + by intros ?%elem_of_nil.
    + intros [->|Hd]%elem_of_cons; [done|]. by apply IH.
Qed.

Lemma _update_step_trie d repo self :
  ∃ r, _subrepos_trie (_update_step d (repo, self)).2 = <[ d := r ]> (_subrepos_trie self).
Proof.
  unfold _update_step. destruct (_is_dvc_repo self d); simpl; eauto.
Qed.

Lemma _update_other dirs : ∀ repo self q,
  q ∉ dirs →
  _subrepos_trie (_update dirs repo self) !! q = _subrepos_trie self !! q.
Proof.
  unfold _update.
  induction dirs as [|d dirs IH]; intros repo self q Hq; cbn [fold_left]; [done|].
  apply not_elem_of_cons in Hq as [Hqd Hq].
  destruct (_update_step_trie d repo self) as [r' Htrie].
  destruct (_update_step d (repo, self)) as [repo' self'].
  simpl in Htrie. rewrite IH, Htrie by done. by apply lookup_insert_ne.
Qed.

Lemma _update_keeps dirs repo self q r :
  (∀ d, d ∈ dirs → _subrepos_trie self !! d = None) →
  _subrepos_trie self !! q = Some r →
  _subrepos_trie (_update dirs repo self) !! q = Some r.
Proof.
  intros Hfresh Hq. rewrite _update_other; [done|].
  intros Hin. apply Hfresh in Hin. congruence.
Qed.

Lemma _update_last dirs d repo self :
  is_Some (_subrepos_trie (_update (dirs ++ [d]) repo self) !! d).
Proof.
  unfold _update. rewrite fold_left_app. cbn [fold_left].
  destruct (fold_left _ dirs (repo, self)) as [repo' self'].
  destruct (_update_step_trie d repo' self') as [r ->].
  rewrite lookup_insert_eq. eauto.
Qed.

Lemma _get_repo_again (p : path) (self : RepoTree) :
  _get_repo p (_get_repo p self).2 = _get_repo p self.
Proof.
  unfold _get_repo at 2 3.
  destruct (_subrepos_trie self !! p) as [repo|] eqn:Hp; simpl.
  { unfold _get_repo. by rewrite Hp. }
  destruct (longest_prefix (_subrepos_trie self) p) as [[prefix repo]|] eqn:Hpre; simpl.
  2:{ unfold _get_repo. by rewrite Hp, Hpre. }
  rewrite reverse_cons.
  destruct (_update_last (reverse (takewhile (λ q, negb (bool_decide (q = prefix)))
              (parents p))) p repo self) as [r Hr].
  unfold _get_repo. by rewrite Hr.
Qed.

Lemma _get_repo_keeps (p : path) (self : RepoTree) q r :
  _subrepos_trie self !! q = Some r →
  _subrepos_trie (_get_repo p self).2 !! q = Some r.
Proof.
  intros Hq. unfold _get_repo.
  destruct (_subrepos_trie self !! p) as [repo|] eqn:Hp; simpl; [done|].
  destruct (longest_prefix (_subrepos_trie self) p) as [[prefix repo]|] eqn:Hpre;
    simpl; [|done].
  apply _update_keeps; [|done].
  intros d Hd. apply elem_of_reverse, elem_of_cons in Hd as [->|Hd]; [done|].
  unfold longest_prefix in Hpre. simpl in Hpre. rewrite Hp in Hpre.
  by eapply first_hit_takewhile.
Qed.

Lemma _get_tree_pair_again (p : path) (self : RepoTree) :
  _get_tree_pair p (_get_tree_pair p self).2 = _get_tree_pair p self.
Proof.
  unfold _get_tree_pair.
  pose proof (_get_repo_again p self) as Hagain.
  destruct (_get_repo p self) as [found self1]. simpl in *. by rewrite Hagain.
Qed.

Lemma trie_kept_trans self1 self2 self3 :
  trie_kept self1 self2 → trie_kept self2 self3 → trie_kept self1 self3.
Proof. unfold trie_kept. eauto. Qed.

Lemma keeps_ret {A} (a : A) : keeps_trie (ret a).
Proof. by intros self q r. Qed.

Lemma keeps_raise {A} e : keeps_trie (raise (A:=A) e).
Proof. by intros self q r. Qed.

Lemma keeps_out_of_fuel {A} : keeps_trie (out_of_fuel (A:=A)).
Proof. by intros self q r. Qed.

Lemma keeps_emit ev : keeps_trie (emit ev).
Proof. by intros self q r. Qed.

Lemma keeps_get_self : keeps_trie get_self.
Proof. by intros self q r. Qed.

Lemma keeps_bind {A B} (m : M A) (k : A → M B) :
  keeps_trie m → (∀ a, keeps_trie (k a)) → keeps_trie (bind m k).
Proof.
  intros Hm Hk self. specialize (Hm self). unfold bind.
  destruct (m self) as [[t self1] [a| |]]; [|done..].
  specialize (Hk a self1). destruct (k a self1) as [[t2 self2] o2].
  by eapply trie_kept_trans.
Qed.

Lemma keeps_get_repo p : keeps_trie (lift (_get_repo p)).
Proof.
  intros self q r Hq. unfold lift.
  pose proof (_get_repo_keeps p self q r Hq) as Hkeep.
  by destruct (_get_repo p self).
Qed.

Lemma keeps_get_tree_pair p : keeps_trie (lift (_get_tree_pair p)).
Proof.
  intros self q r Hq. unfold lift, _get_tree_pair.
  pose proof (_get_repo_keeps p self q r Hq) as Hkeep.
  by destruct (_get_repo p self).
Qed.

Lemma keeps_for_each {A S} (xs : list A) (body : A → S → M S) :
  (∀ x s, keeps_trie (body x s)) → ∀ s, keeps_trie (for_each xs body s).
Proof.
  intros Hbody. induction xs as [|x xs IH]; intros s; simpl.
  - apply keeps_ret.
  - apply keeps_bind; [apply Hbody|apply IH].
Qed.

Lemma keeps_yield_from walk : keeps_trie (yield_from walk).
Proof.
  induction walk as [|root dirs files resume IH]; simpl.
  - apply keeps_ret.
  - apply keeps_bind; [apply keeps_emit|intros _; apply IH].
Qed.

(** Takes a method apart, down to the steps that touch the instance. *)
Ltac keeps_step :=
  first
    [ apply keeps_ret | apply keeps_raise | apply keeps_out_of_fuel
    | apply keeps_emit | apply keeps_get_self
    | apply keeps_get_tree_pair | apply keeps_get_repo | apply keeps_yield_from
    | assumption
    | apply keeps_bind; [|intros ?]
    | apply keeps_for_each; intros ? ?
    | match goal with
      | |- keeps_trie (match ?x with _ => _ end) => destruct x
      | |- keeps_trie (call ?r) => destruct r
      | |- keeps_trie (unpack1 ?l) => unfold unpack1
      | |- keeps_trie (assert_ ?b) => unfold assert_
      | |- keeps_trie (suppress_FileNotFoundError ?r) => unfold suppress_FileNotFoundError
      | |- keeps_trie (yield ?l) => unfold yield
      | |- keeps_trie (call_onerror ?o ?e ?t) => unfold call_onerror
      end ].

Lemma keeps_exists p : keeps_trie (exists_ p).
Proof. unfold exists_. repeat keeps_step. Qed.

Lemma keeps_isdir p : keeps_trie (isdir_ p).
Proof. unfold isdir_. repeat keeps_step. Qed.

Lemma keeps_isfile p : keeps_trie (isfile_ p).
Proof. unfold isfile_. repeat keeps_step. Qed.

Lemma keeps_metadata p : keeps_trie (metadata p).
Proof. unfold metadata. repeat keeps_step. Qed.

Lemma keeps_info p : keeps_trie (info p).
Proof. unfold info. repeat keeps_step. Qed.

Lemma keeps_open p : keeps_trie (open_ p).
Proof. unfold open_. repeat keeps_step. Qed.

Lemma keeps_dvc_walk fuel : ∀ walk, keeps_trie (_dvc_walk fuel walk).
Proof.
  induction fuel as [|fuel IH]; intros walk; simpl; [apply keeps_out_of_fuel|].
  repeat keeps_step; apply IH.
Qed.

Lemma keeps_walk_merge fuel :
  ∀ repo_walk dvc_walk dvcfiles, keeps_trie (_walk fuel repo_walk dvc_walk dvcfiles).
Proof.
  induction fuel as [|fuel IH]; intros repo_walk dvc_walk dvcfiles; simpl;
    [apply keeps_out_of_fuel|].
  repeat keeps_step; first [apply IH | apply keeps_dvc_walk].
Qed.

Lemma keeps_walk fuel top topdown onerror dvcfiles follow_subrepos :
  keeps_trie (walk fuel top topdown onerror dvcfiles follow_subrepos).
Proof.
  unfold walk.
  repeat keeps_step; try apply keeps_exists; try apply keeps_isdir;
    try apply keeps_walk_merge.
Qed.

(** C8, resolution.  A second [_get_repo] on the same path, run on the
    instance that the first one left, returns the handle the first one
    returned (the same object: its [repo_id] included) and leaves the instance
    as it is, so the trie, the index of managed trees and the list of factory
    calls do not change.  Whatever the trie held for any path before a call of
    [_get_repo], it still holds afterwards, and the same is true of every
    method of the facade, the walk included, however the method ends. *)
Theorem _get_repo_idempotent (p : path) (self : RepoTree) :
  _get_repo p (_get_repo p self).2 = _get_repo p self
  ∧ factory_calls (_get_repo p (_get_repo p self).2).2 = factory_calls (_get_repo p self).2
  ∧ trie_kept self (_get_repo p self).2
  ∧ keeps_trie (exists_ p) ∧ keeps_trie (isdir_ p) ∧ keeps_trie (isfile_ p)
  ∧ keeps_trie (metadata p) ∧ keeps_trie (info p) ∧ keeps_trie (open_ p)
  ∧ ∀ fuel topdown onerror dvcfiles follow_subrepos,
      keeps_trie (walk fuel p topdown onerror dvcfiles follow_subrepos).
Proof.
  split; [apply _get_repo_again|]. split; [by rewrite _get_repo_again|].
  split; [intros q r; apply _get_repo_keeps|].
  split; [apply keeps_exists|]. split; [apply keeps_isdir|].
  split; [apply keeps_isfile|]. split; [apply keeps_metadata|].
  split; [apply keeps_info|]. split; [apply keeps_open|].
  intros. apply keeps_walk.
Qed.

(** ** Existence under shadowing *)

(** C2, [exists].  With [tree] and [dvc_tree] the pair resolved for the
    path: if the working tree has the path, [exists] returns [True]; if it
    has not and there is a managed tree, [exists] returns [True] exactly when
    the managed metadata is found, names one covering output, and the
    working tree does not have that output's own path; and when the managed
    lookup reports not-found, [exists] returns [False]. *)
Theorem exists_shadowing (p : path) (self self' : RepoTree) tree dvc_tree :
  _get_tree_pair p self = ((tree, dvc_tree), self') →
  (tree_exists tree p = true → exists_ p self = ([], self', Done true))
  ∧ (∀ managed, tree_exists tree p = false → dvc_tree = Some managed →
       (outcome_of (exists_ p self) = Done true ↔
          ∃ meta out, dvc_metadata managed p = Ok meta ∧ outs meta = [out]
                      ∧ tree_exists tree (out_path_info out) = false)
       ∧ (dvc_metadata managed p = Err FileNotFoundError →
          exists_ p self = ([], self', Done false))).
Proof.
  intros Hpair. unfold exists_, bind, lift. rewrite Hpair. split.
  - intros Hex. destruct dvc_tree; rewrite Hex; reflexivity.
  - intros managed Hex ->. rewrite Hex. split.
    + destruct (dvc_metadata managed p) as [meta|e]; simpl.
      * destruct (outs meta) as [|out [|out' os]] eqn:Houts; simpl.
        -- split; [done|]. intros (? & ? & [= <-] & ? & _). congruence.
        -- destruct (tree_exists tree (out_path_info out)) eqn:Hout; simpl.
           ++ split; [done|]. intros (? & ? & [= <-] & Ho & Hno).
              rewrite Houts in Ho. injection Ho as <-. congruence.
           ++ split; [|done]. intros _. eauto 6.
        -- split; [done|]. intros (? & ? & [= <-] & ? & _). congruence.
      * split; [destruct e; done|]. intros (? & ? & ? & _). congruence.
    + intros ->. reflexivity.
Qed.

(** ** A covering-output count other than one *)

(** C9 as amended, [exists]/[isdir]/[isfile].  When the working tree does
    not answer for the path ([exists] is false for it, respectively its
    [stat] fails with an [OSError] or a [ValueError]) and the managed
    metadata of the path names a number of outputs other than one, the three
    operations raise [ValueError] (the unpacking of [meta.outs]) and return
    nothing. *)
Theorem outs_cardinality_fatal (p : path) (self self' : RepoTree) tree managed meta :
  _get_tree_pair p self = ((tree, Some managed), self') →
  dvc_metadata managed p = Ok meta →
  length (outs meta) ≠ 1 →
  (tree_exists tree p = false → exists_ p self = ([], self', Raise ValueError))
  ∧ (∀ e, tree_stat tree p = Err e → is_OSError e || bool_decide (e = ValueError) = true →
       isdir_ p self = ([], self', Raise ValueError)
       ∧ isfile_ p self = ([], self', Raise ValueError)).
Proof.
  intros Hpair Hmeta Hlen.
  assert (∀ B (k : Output → M B) s, bind (unpack1 (outs meta)) k s = ([], s, Raise ValueError))
    as Hunpack.
  { intros B k s. unfold bind, unpack1.
    destruct (outs meta) as [|out [|out' os]]; simpl in *; done. }
  split.
  - intros Hex. unfold exists_. unfold bind at 1. unfold lift.
    rewrite Hpair, Hex, Hmeta, Hunpack. reflexivity.
  - intros e Hstat He. split.
    + unfold isdir_. unfold bind at 1. unfold lift.
      rewrite Hpair, Hstat, He. cbn [negb]. rewrite Hmeta, Hunpack. reflexivity.
    + unfold isfile_. unfold bind at 1. unfold lift.
      rewrite Hpair, Hstat, He. cbn [negb]. rewrite Hmeta, Hunpack. reflexivity.
Qed.

(** ** Metadata: the directory flag *)

(** C6, [metadata].  Where the managed tree has metadata [dvc_meta] for the
    path: if the working tree's [stat] succeeds, [metadata] returns a record
    whose [isdir] is [dvc_meta.isdir or S_ISDIR(st_mode)]; if the [stat]
    reports not-found, it returns a record with [dvc_meta.isdir]; and any
    record it returns is a directory as soon as [dvc_meta] is one or the
    working tree's [stat] says so. *)
Theorem metadata_isdir (p : path) (self self' : RepoTree) tree managed dvc_meta :
  _get_tree_pair p self = ((tree, Some managed), self') →
  dvc_metadata managed p = Ok dvc_meta →
  (∀ st, tree_stat tree p = Ok st →
     ∃ m, metadata p self = ([], self', Done m)
          ∧ isdir m = isdir dvc_meta || S_ISDIR (st_mode st)
          ∧ is_exec m = is_exec dvc_meta ∧ outs m = outs dvc_meta)
  ∧ (tree_stat tree p = Err FileNotFoundError →
     ∃ m, metadata p self = ([], self', Done m) ∧ isdir m = isdir dvc_meta)
  ∧ (∀ m, outcome_of (metadata p self) = Done m →
       (isdir dvc_meta = true → isdir m = true)
       ∧ (∀ st, tree_stat tree p = Ok st → S_ISDIR (st_mode st) = true → isdir m = true)).
Proof.
  intros Hpair Hmeta.
  assert (∀ st, tree_stat tree p = Ok st →
    metadata p self =
      ([], self', Done {| path_info := path_info dvc_meta; meta_repo := meta_repo dvc_meta;
                          isdir := isdir dvc_meta || S_ISDIR (st_mode st);
                          is_exec := is_exec dvc_meta; outs := outs dvc_meta |})) as Hok.
  { intros st Hst. unfold metadata, bind, lift. rewrite Hpair. simpl.
    rewrite Hmeta. simpl. rewrite Hst. reflexivity. }
  assert (tree_stat tree p = Err FileNotFoundError →
    metadata p self =
      ([], self', Done {| path_info := path_info dvc_meta; meta_repo := meta_repo dvc_meta;
                          isdir := isdir dvc_meta || false;
                          is_exec := is_exec dvc_meta; outs := outs dvc_meta |})) as Hnf.
  { intros Hst. unfold metadata, bind, lift. rewrite Hpair. simpl.
    rewrite Hmeta. simpl. rewrite Hst. reflexivity. }
  split; [|split].
  - intros st Hst. eexists. split; [by apply Hok|]. done.
  - intros Hst. eexists. split; [by apply Hnf|]. simpl. by rewrite orb_false_r.
  - intros m Hm. destruct (tree_stat tree p) as [st|e] eqn:Hst.
    + rewrite (Hok st eq_refl) in Hm. injection Hm as <-. simpl. split.
      * by intros ->.
      * intros ? [= <-] ->. by rewrite orb_true_r.
    + split; [|done]. destruct (decide (e = FileNotFoundError)) as [->|Hne].
      * rewrite (Hnf eq_refl) in Hm. injection Hm as <-. simpl. by intros ->.
      * exfalso. revert Hm. unfold metadata, bind, lift. rewrite Hpair. simpl.
        rewrite Hmeta. simpl. rewrite Hst. destruct e; done.
Qed.

(** ** Info *)

(** [info] where the resolved repo has a managed tree: the working tree's
    answer if it has one, the managed tree's answer or error when the working
    tree reports not-found. *)
Lemma info_with_managed_tree (p : path) (self self' : RepoTree) tree managed :
  _get_tree_pair p self = ((tree, Some managed), self') →
  (∀ i, tree_info tree p = Ok i → info p self = ([], self', Done i))
  ∧ (tree_info tree p = Err FileNotFoundError →
     info p self = ([], self',
                    match dvc_info managed p with Ok i => Done i | Err e => Raise e end)).
Proof.
  intros Hpair. unfold info, bind, lift. rewrite Hpair. split.
  - by intros i ->.
  - intros ->. simpl. by destruct (dvc_info managed p).
Qed.

(** [info] where the resolved repo has no managed tree and the working tree
    reports not-found: the lookup of [info] on [None] fails. *)
Lemma info_without_managed_tree (p : path) (self self' : RepoTree) tree :
  _get_tree_pair p self = ((tree, None), self') →
  tree_info tree p = Err FileNotFoundError →
  info p self = ([], self', Raise AttributeError).
Proof.
  intros Hpair Hinfo. unfold info, bind, lift. by rewrite Hpair, Hinfo.
Qed.

(** [open] in the same situation re-raises the working tree's error. *)
Lemma open_without_managed_tree (p : path) (self self' : RepoTree) tree :
  _get_tree_pair p self = ((tree, None), self') →
  tree_open tree p = Err FileNotFoundError →
  open_ p self = ([], self', Raise FileNotFoundError).
Proof.
  intros Hpair Hopen. unfold open_, bind, lift. by rewrite Hpair, Hopen.
Qed.

(** ** Running a method step by step *)

Lemma bind_Done {A B} (m : M A) (k : A → M B) self t self1 a :
  m self = (t, self1, Done a) →
  bind m k self = (t ++ trace_of (k a self1), self_of (k a self1), outcome_of (k a self1)).
Proof.
  intros Hm. unfold bind. rewrite Hm. by destruct (k a self1) as [[??]?].
Qed.

Lemma bind_Raise {A B} (m : M A) (k : A → M B) self t self1 e :
  m self = (t, self1, Raise e) → bind m k self = (t, self1, Raise e).
Proof. intros Hm. unfold bind. by rewrite Hm. Qed.

Lemma run_eta {A} (r : list event * RepoTree * outcome A) :
  r = (trace_of r, self_of r, outcome_of r).
Proof. by destruct r as [[??]?]. Qed.

Lemma yield_from_run (walk : gen) (self : RepoTree) :
  yield_from walk self = (Yield <$> levels walk, self, Done tt).
Proof.
  induction walk as [|root dirs files resume IH]; simpl; [done|].
  erewrite bind_Done by reflexivity. by rewrite IH.
Qed.

Lemma exists_effects (p : path) (self : RepoTree) :
  trace_of (exists_ p self) = [] ∧ self_of (exists_ p self) = (_get_tree_pair p self).2.
Proof.
  unfold exists_, bind, lift.
  destruct (_get_tree_pair p self) as [[tree dvc_tree] self1]. simpl.
  destruct dvc_tree as [managed|]; [|done].
  destruct (tree_exists tree p); [done|].
  destruct (dvc_metadata managed p) as [meta|[]]; try done. simpl.
  destruct (outs meta) as [|out [|??]]; try done. simpl.
  by destruct (tree_exists tree (out_path_info out)).
Qed.

Lemma isdir_effects (p : path) (self : RepoTree) :
  trace_of (isdir_ p self) = [] ∧ self_of (isdir_ p self) = (_get_tree_pair p self).2.
Proof.
  unfold isdir_, bind, lift.
  destruct (_get_tree_pair p self) as [[tree dvc_tree] self1]. simpl.
  destruct (tree_stat tree p) as [st|e]; [done|].
  destruct (negb _); [done|].
  destruct dvc_tree as [managed|]; [|done].
  destruct (dvc_metadata managed p) as [meta|[]]; try done. simpl.
  destruct (outs meta) as [|out [|??]]; try done. simpl.
  by destruct (tree_exists tree (out_path_info out)).
Qed.

Lemma _walk_Stop fuel dvc_walk dvcfiles self :
  ∃ g, _walk (S fuel) Stop dvc_walk dvcfiles self = ([], self, Done g).
Proof.
  simpl. destruct (next_dvc dvc_walk) as [[[??]?]|]; eauto.
Qed.

(** ** The entry point of the walk *)

(** C10, [walk].  With [topdown=False] the walk raises [AssertionError] at
    once: nothing is yielded, the callback is not called, and the instance
    is as before, so neither validation nor resolution has run.  Hence a run
    of the walk that yields a level at all was asked to go top-down. *)
Theorem walk_bottom_up_rejected fuel top onerror dvcfiles follow_subrepos self :
  walk fuel top false onerror dvcfiles follow_subrepos self = ([], self, Raise AssertionError)
  ∧ ∀ topdown,
      yielded (trace_of (walk fuel top topdown onerror dvcfiles follow_subrepos self)) ≠ [] →
      topdown = true.
Proof.
  assert (walk fuel top false onerror dvcfiles follow_subrepos self
          = ([], self, Raise AssertionError)) as Hraise.
  { unfold walk. by apply bind_Raise. }
  split; [exact Hraise|].
  intros [] Hyields; [done|]. by rewrite Hraise in Hyields.
Qed.

(** C4, [walk].  If [exists(top)] returns [False], the walk calls the
    callback once with [FileNotFoundError(top)] when one was given and does
    nothing when none was; if [exists(top)] returns [True] and [isdir(top)]
    returns [False], the same with [NotADirectoryError(top)].  In both cases
    the walk yields no level and ends without raising. *)
Theorem walk_invalid_root fuel top onerror dvcfiles follow_subrepos self :
  (outcome_of (exists_ top self) = Done false →
     walk fuel top true onerror dvcfiles follow_subrepos self =
       (match onerror with
        | Some cb => [OnError cb FileNotFoundError top]
        | None => []
        end, (_get_tree_pair top self).2, Done tt))
  ∧ (outcome_of (exists_ top self) = Done true →
     outcome_of (isdir_ top (self_of (exists_ top self))) = Done false →
     walk fuel top true onerror dvcfiles follow_subrepos self =
       (match onerror with
        | Some cb => [OnError cb NotADirectoryError top]
        | None => []
        end, (_get_tree_pair top self).2, Done tt)).
Proof.
  destruct (exists_effects top self) as [Ht Hs].
  split.
  - intros Ho. unfold walk.
    erewrite bind_Done by reflexivity.
    erewrite bind_Done by (rewrite (run_eta (exists_ top self)), Ht, Hs, Ho; reflexivity).
    simpl. by destruct onerror.
  - intros Ho Hd. rewrite Hs in Hd.
    destruct (isdir_effects top (_get_tree_pair top self).2) as [Ht' Hs'].
    rewrite _get_tree_pair_again in Hs'.
    unfold walk.
    erewrite bind_Done by reflexivity.
    erewrite bind_Done by (rewrite (run_eta (exists_ top self)), Ht, Hs, Ho; reflexivity).
    simpl.
    erewrite bind_Done
      by (rewrite (run_eta (isdir_ top _)), Ht', Hs', Hd; reflexivity).
    simpl. by destruct onerror.
Qed.

(** C5 as amended, [walk].  Given a managed tree for the repo of [top], a
    start path that passes the two checks of the walk, and a working tree
    that does not report [top] as existing, the walk yields the levels of the
    managed tree's walk of [top], all of them and in order, and then goes on
    with the merge of the working tree's walk of [top] and a second walk of
    the managed tree.  When the working tree's walk of [top] yields nothing,
    the merge adds nothing: the walk yields the levels of the managed tree's
    walk of [top] and nothing else, and ends normally. *)
Theorem walk_managed_only fuel top onerror dvcfiles follow_subrepos
    (self self' : RepoTree) tree managed :
  _get_tree_pair top self = ((tree, Some managed), self') →
  outcome_of (exists_ top self) = Done true →
  outcome_of (isdir_ top self') = Done true →
  tree_exists tree top = false →
  let ignore_subrepos :=
    match follow_subrepos with
    | Some follow => negb follow
    | None => negb (_traverse_subrepos self')
    end in
  walk fuel top true onerror dvcfiles follow_subrepos self
  = (yield_from (dvc_walk managed top);;
     _walk fuel (tree_walk tree top ignore_subrepos)
       (if dvc_exists managed top then Some (dvc_walk managed top) else None) dvcfiles;;
     ret tt) self'
  ∧ (tree_walk tree top ignore_subrepos = Stop →
     walk (S fuel) top true onerror dvcfiles follow_subrepos self
     = (Yield <$> levels (dvc_walk managed top), self', Done tt)).
Proof.
  intros Hpair Hex Hdir Hno ignore_subrepos.
  destruct (exists_effects top self) as [Ht Hs]. rewrite Hpair in Hs. simpl in Hs.
  destruct (isdir_effects top self') as [Ht' Hs'].
  pose proof (_get_tree_pair_again top self) as Hagain.
  rewrite Hpair in Hagain. simpl in Hagain. rewrite Hagain in Hs'. simpl in Hs'.
  assert (∀ fuel, walk fuel top true onerror dvcfiles follow_subrepos self
          = (yield_from (dvc_walk managed top);;
             _walk fuel (tree_walk tree top ignore_subrepos)
               (if dvc_exists managed top then Some (dvc_walk managed top) else None)
               dvcfiles;;
             ret tt) self') as Hwalk.
  { intros fuel'. unfold walk.
    erewrite bind_Done by reflexivity.
    erewrite bind_Done by (rewrite (run_eta (exists_ top self)), Ht, Hs, Hex; reflexivity).
    cbn [negb app trace_of self_of outcome_of fst snd].
    erewrite bind_Done by (rewrite (run_eta (isdir_ top self')), Ht', Hs', Hdir; reflexivity).
    cbn [negb app trace_of self_of outcome_of fst snd].
    erewrite bind_Done by reflexivity.
    erewrite bind_Done by (unfold lift; rewrite Hagain; reflexivity).
    cbn [app trace_of self_of outcome_of fst snd].
    rewrite Hno. cbn [andb negb].
    symmetry. apply run_eta. }
  split; [apply Hwalk|].
  intros Hstop. rewrite Hwalk.
  erewrite bind_Done by apply yield_from_run.
  rewrite Hstop.
  destruct (_walk_Stop fuel
              (if dvc_exists managed top then Some (dvc_walk managed top) else None)
              dvcfiles self') as [g Hg].
  erewrite bind_Done by apply Hg.
  cbn. by rewrite app_nil_r.
Qed.

(** ** One level of the merge *)

Lemma elem_of_list_of_set (l : list string) x : x ∈ list_of_set l ↔ x ∈ l.
Proof. by rewrite list_of_set_perm, elem_of_remove_dups. Qed.

Lemma NoDup_list_of_set (l : list string) : NoDup (list_of_set l).
Proof. rewrite list_of_set_perm. apply NoDup_remove_dups. Qed.

Lemma elem_of_List_filter {A} (f : A → bool) (l : list A) x :
  x ∈ List.filter f l ↔ x ∈ l ∧ f x = true.
Proof. by rewrite !list_elem_of_In, filter_In. Qed.


Lemma List_filter_none {A} (f : A → bool) (l : list A) :
  (∀ x, x ∈ l → f x = false) → List.filter f l = [].
Proof.
  induction l as [|a l IH]; intros Hnone; simpl; [done|].
  rewrite Hnone by apply list_elem_of_here.
  apply IH. intros x Hx. apply Hnone. by apply list_elem_of_further.
Qed.

Lemma List_filter_ext_in {A} (f g : A → bool) (l : list A) :
  (∀ x, x ∈ l → f x = g x) → List.filter f l = List.filter g l.
Proof.
  intros Hfg. apply filter_ext_in. intros x Hx. apply Hfg. by apply list_elem_of_In.
Qed.







(** ** What the loop of [_update] leaves *)

Lemma _update_step_config d repo self :
  same_config self (_update_step d (repo, self)).2.
Proof. unfold _update_step, same_config. by destruct (_is_dvc_repo self d). Qed.

Lemma _is_dvc_repo_config self self' d :
  same_config self self' → _is_dvc_repo self' d = _is_dvc_repo self d.
Proof. intros (_ & Hmain & Htrav). unfold _is_dvc_repo. by rewrite Hmain, Htrav. Qed.

Lemma same_config_trans self1 self2 self3 :
  same_config self1 self2 → same_config self2 self3 → same_config self1 self3.
Proof. unfold same_config. intros (?&?&?) (?&?&?). repeat split; congruence. Qed.

(** The loop of [_update], turn by turn. *)
Lemma _update_fold dirs : ∀ repo self,
  let res := fold_left (λ acc d, _update_step d acc) dirs (repo, self) in
  same_config self res.2
  ∧ factory_calls res.2 = factory_calls self ++ List.filter (_is_dvc_repo self) dirs
  ∧ (∀ q, is_Some (_subrepos_trie self !! q) ∨ q ∈ dirs →
          is_Some (_subrepos_trie res.2 !! q))
  ∧ (Forall (λ d, _is_dvc_repo self d = false) dirs →
     res.1 = repo ∧ _dvctrees res.2 = _dvctrees self
     ∧ ∀ d, d ∈ dirs → _subrepos_trie res.2 !! d = Some repo).
Proof.
  induction dirs as [|d dirs IH]; intros repo self; cbn [fold_left].
  { simpl. split; [done|]. split; [by rewrite app_nil_r|]. split.
    - by intros q [?|?%elem_of_nil].
    - intros _. split; [done|]. split; [done|]. by intros ? ?%elem_of_nil. }
  pose proof (_update_step_config d repo self) as Hconf.
  assert (factory_calls (_update_step d (repo, self)).2
          = factory_calls self ++ (if _is_dvc_repo self d then [d] else [])
          ∧ (∃ r, _subrepos_trie (_update_step d (repo, self)).2
                  = <[ d := r ]> (_subrepos_trie self)
                  ∧ (_is_dvc_repo self d = false → r = repo))
          ∧ (_is_dvc_repo self d = false →
             (_update_step d (repo, self)).1 = repo
             ∧ _dvctrees (_update_step d (repo, self)).2 = _dvctrees self))
    as (Hcalls & (r & Htrie & Hr) & Hplain).
  { unfold _update_step. destruct (_is_dvc_repo self d); simpl.
    - split; [done|]. split; [eexists; split; [done|done]|done].
    - rewrite app_nil_r. split; [done|]. split; [eexists; split; done|done]. }
  destruct (_update_step d (repo, self)) as [repo1 self1]. simpl in *.
  destruct (IH repo1 self1) as (Hconf' & Hcalls' & Hdom & Hplain').
  split; [by eapply same_config_trans|]. split; [|split].
  - rewrite Hcalls', Hcalls, <- app_assoc. f_equal.
    rewrite (List_filter_ext_in (_is_dvc_repo self1) (_is_dvc_repo self))
      by (intros; by apply _is_dvc_repo_config).
    by destruct (_is_dvc_repo self d).
  - intros q Hq. apply Hdom.
    destruct (decide (q = d)) as [->|Hne].
    + left. rewrite Htrie, lookup_insert_eq. eauto.
    + destruct Hq as [Hq|[->|Hq]%elem_of_cons]; [|done|by right].
      left. by rewrite Htrie, lookup_insert_ne.
  - intros [Hd Hall]%Forall_cons.
    destruct (Hplain Hd) as [-> Hdvc]. rewrite (Hr Hd) in Htrie.
    destruct Hplain' as (Hres & Hdvc' & Hmaps).
    { eapply Forall_impl; [exact Hall|]. intros x Hx. simpl.
      by rewrite (_is_dvc_repo_config self self1). }
    split; [done|]. split; [congruence|].
    intros d' Hd'. destruct (decide (d' ∈ dirs)) as [Hin|Hnotin]; [by apply Hmaps|].
    apply elem_of_cons in Hd' as [->|?]; [|done].
    pose proof (_update_other dirs repo self1 d Hnotin) as Hother.
    unfold _update in Hother. rewrite Hother, Htrie. apply lookup_insert_eq.
Qed.

(** Resolution of a subrepo root that the trie does not have yet: the last
    turn of the loop of [_update] is the one for the path itself. *)
Lemma _get_repo_subrepo_root (p : path) self prefix repo :
  _subrepos_trie self !! p = None →
  longest_prefix (_subrepos_trie self) p = Some (prefix, repo) →
  _is_dvc_repo self p = true →
  (_get_repo p self).1 = Some (repo_factory self p)
  ∧ _dvctrees (_get_repo p self).2 !! root_dir (repo_factory self p)
    = Some (new_DvcTree (repo_factory self p))
  ∧ last (factory_calls (_get_repo p self).2) = Some p.
Proof.
  intros Hp Hpre Hsub.
  set (before := reverse (takewhile (λ q, negb (bool_decide (q = prefix))) (parents p))).
  assert (_get_repo p self
          = (_subrepos_trie (_update (before ++ [p]) repo self) !! p,
             _update (before ++ [p]) repo self)) as Hrun.
  { unfold _get_repo. rewrite Hp, Hpre. simpl. by rewrite reverse_cons. }
  rewrite Hrun. clear Hrun.
  unfold _update. rewrite fold_left_app. cbn [fold_left].
  destruct (_update_fold before repo self) as (Hconf & Hcalls & _ & _).
  destruct (fold_left _ before (repo, self)) as [repo1 self1]. simpl in Hconf, Hcalls.
  unfold _update_step. rewrite (_is_dvc_repo_config self self1), Hsub by done.
  destruct Hconf as (Hfactory & _ & _). rewrite Hfactory. simpl.
  rewrite !lookup_insert_eq. split; [done|]. split; [done|]. apply last_snoc.
Qed.

(** ** The order of the recursion *)


(** C3 as amended, [_walk] and [_dvc_walk].  The level that a step of the
    merge yields, for a directory that the working tree's walk reports, lists
    each name once, and lists exactly the names of the managed side or of the
    working side that pass the filter: every name when [dvcfiles] is set, and
    otherwise those that are neither a pipeline or definition file nor the
    ignore-file.  The level of a managed-only directory is the one the
    managed tree's walk gives, as it is. *)
Theorem _walk_level_files fuel repo_root repo_dirs repo_fnames repo_resume
    dvc_walk dvc_dirs dvc_fnames dvc_resume dvcfiles (self : RepoTree) :
  next_dvc dvc_walk = Some (dvc_dirs, dvc_fnames, dvc_resume) →
  (∃ dirs files rest,
     trace_of (_walk (S fuel) (Step repo_root repo_dirs repo_fnames repo_resume)
                 dvc_walk dvcfiles self)
       = Yield (repo_root, dirs, files) :: rest
     ∧ NoDup files
     ∧ (∀ f, f ∈ files ↔
             (f ∈ dvc_fnames ∨ f ∈ repo_fnames)
             ∧ (dvcfiles = true ∨ (is_valid_filename f = false ∧ f ≠ DVCIGNORE_FILE)))
     ∧ (dvcfiles = true → ∀ f, f ∈ files ↔ f ∈ dvc_fnames ∨ f ∈ repo_fnames))
  ∧ (∀ root dirs files resume, ∃ rest,
       trace_of (_dvc_walk (S fuel) (Some (Step root dirs files resume)) self)
         = Yield (root, dirs, files) :: rest).
Proof.
  intros Hnext. split.
  - cbn [_walk]. rewrite Hnext.
    erewrite (bind_Done (yield _)) by reflexivity.
    do 3 eexists. split; [reflexivity|].
    assert (∀ f, f ∈ list_of_set (List.filter (_func dvcfiles) (dvc_fnames ++ repo_fnames)) ↔
              (f ∈ dvc_fnames ∨ f ∈ repo_fnames) ∧ _func dvcfiles f = true) as Hfiles.
    { intros f. by rewrite elem_of_list_of_set, elem_of_List_filter, elem_of_app. }
    split; [apply NoDup_list_of_set|]. split.
    + intros f. rewrite Hfiles. unfold _func. destruct dvcfiles.
      * intuition.
      * rewrite negb_true_iff, orb_false_iff, bool_decide_eq_false.
        intuition congruence.
    + intros -> f. rewrite Hfiles. simpl. intuition.
  - intros root dirs files resume. cbn [_dvc_walk].
    erewrite (bind_Done (yield _)) by reflexivity. eauto.
Qed.

(** ** Discovery along a path *)

Lemma first_hit_Some t cands q r :
  first_hit t cands = Some (q, r) → q ∈ cands ∧ t !! q = Some r.
Proof.
  induction cands as [|c cands IH]; simpl; [done|].
  destruct (t !! c) as [rc|] eqn:Hc.
  - intros [= -> ->]. split; [apply list_elem_of_here|done].
  - intros [Hin Hq]%IH. split; [by apply list_elem_of_further|done].
Qed.

Lemma first_hit_None t cands :
  first_hit t cands = None ↔ ∀ q, q ∈ cands → t !! q = None.
Proof.
  induction cands as [|c cands IH]; simpl.
  - split; [by intros _ q ?%elem_of_nil|done].
  - destruct (t !! c) as [rc|] eqn:Hc.
    + split; [done|]. intros Hall. rewrite Hall in Hc; [done|apply list_elem_of_here].
    + rewrite IH. split.
      * intros Hall q [->|Hq]%elem_of_cons; auto.
      * intros Hall q Hq. apply Hall. by apply list_elem_of_further.
Qed.

Lemma reverse_seq_S m : reverse (seq 0 (S m)) = m :: reverse (seq 0 m).
Proof. by rewrite seq_S, reverse_app. Qed.

Lemma elem_of_parents (p q : path) :
  q ∈ parents p ↔ ∃ n, n < length p ∧ q = take n p.
Proof.
  unfold parents. rewrite list_elem_of_fmap. split.
  - intros (n & -> & Hn). exists n. split; [|done].
    apply elem_of_reverse, elem_of_seq in Hn. lia.
  - intros (n & Hn & ->). exists n. split; [done|].
    apply elem_of_reverse, elem_of_seq. lia.
Qed.

(** The candidates of [longest_prefix] are the prefixes of the path. *)
Lemma elem_of_candidates (p q : path) : q ∈ p :: parents p ↔ q `prefix_of` p.
Proof.
  rewrite elem_of_cons, elem_of_parents. split.
  - intros [->|(n & _ & ->)]; [done|]. apply prefix_take.
  - intros [k ->]. destruct k as [|x k].
    + left. by rewrite app_nil_r.
    + right. exists (length q). split.
      * rewrite length_app. simpl. lia.
      * by rewrite take_app_length.
Qed.

Lemma take_ne_take (p : path) i k :
  k < i → i ≤ length p → take i p ≠ take k p.
Proof.
  intros Hki Hi Heq. apply (f_equal length) in Heq.
  rewrite !length_take in Heq. lia.
Qed.

Lemma takewhile_takes (p : path) k m : ∀ n,
  k < n → n < m → m ≤ length p →
  take n p ∈ takewhile (λ q, negb (bool_decide (q = take k p)))
               ((λ i, take i p) <$> reverse (seq 0 m)).
Proof.
  induction m as [|m IH]; intros n Hk Hn Hm; [lia|].
  rewrite reverse_seq_S, fmap_cons. cbn [takewhile].
  rewrite bool_decide_eq_false_2 by (apply take_ne_take; lia). simpl.
  destruct (decide (n = m)) as [->|Hne]; [apply list_elem_of_here|].
  apply list_elem_of_further, IH; lia.
Qed.

(** X2, [_update].  The factory is called once for each of the given
    directories that is a subrepo root, in the order given, and on nothing
    else; the configuration of the instance stays; every given directory has
    a handle in the trie afterwards.  When none of them is a subrepo root,
    all of them inherit the starting handle and the index of managed trees is
    not touched. *)
Theorem _update_factory_calls dirs starting_repo self :
  factory_calls (_update dirs starting_repo self)
    = factory_calls self ++ List.filter (_is_dvc_repo self) dirs
  ∧ same_config self (_update dirs starting_repo self)
  ∧ (∀ d, d ∈ dirs → is_Some (_subrepos_trie (_update dirs starting_repo self) !! d))
  ∧ (Forall (λ d, _is_dvc_repo self d = false) dirs →
     _dvctrees (_update dirs starting_repo self) = _dvctrees self
     ∧ ∀ d, d ∈ dirs →
            _subrepos_trie (_update dirs starting_repo self) !! d = Some starting_repo).
Proof.
  unfold _update.
  destruct (_update_fold dirs starting_repo self) as (Hconf & Hcalls & Hdom & Hplain).
  split; [done|]. split; [done|]. split; [intros d Hd; apply Hdom; by right|].
  intros Hall. by destruct (Hplain Hall) as (_ & ? & ?).
Qed.

(** X1, [_get_repo].  Once a path is resolved through discovery, the trie
    has a handle for every directory from the known prefix down to the path:
    resolving any of them afterwards is an exact hit that returns a handle
    and leaves the instance, the list of factory calls included, as it is. *)
Theorem discovery_fills_path (p : path) self prefix repo :
  _subrepos_trie self !! p = None →
  longest_prefix (_subrepos_trie self) p = Some (prefix, repo) →
  prefix `prefix_of` p
  ∧ ∀ n, length prefix ≤ n →
         ∃ r, _get_repo (take n p) (_get_repo p self).2 = (Some r, (_get_repo p self).2).
Proof.
  intros Hp Hpre.
  pose proof Hpre as Hhit. unfold longest_prefix in Hhit.
  apply first_hit_Some in Hhit as [Hcand Hknown].
  assert (prefix `prefix_of` p) as Hprefix by by apply elem_of_candidates.
  split; [done|]. intros n Hn.
  assert (prefix = take (length prefix) p) as Htake.
  { destruct Hprefix as [k ->]. by rewrite take_app_length. }
  assert (length prefix < length p) as Hlt.
  { destruct Hprefix as [[|x k] ->].
    - rewrite app_nil_r in Hp. congruence.
    - rewrite length_app. simpl. lia. }
  assert (is_Some (_subrepos_trie (_get_repo p self).2 !! take n p)) as [r Hr].
  { unfold _get_repo. rewrite Hp, Hpre. simpl.
    destruct (_update_fold
                (reverse (p :: takewhile (λ q, negb (bool_decide (q = prefix))) (parents p)))
                repo self) as (_ & _ & Hdom & _).
    unfold _update. apply Hdom.
    destruct (decide (n = length prefix)) as [->|Hne].
    { left. rewrite <- Htake, Hknown. eauto. }
    right. apply elem_of_reverse, elem_of_cons.
    destruct (decide (n < length p)) as [Hnp|Hnp].
    - right.
      pose proof (takewhile_takes p (length prefix) (length p) n) as Htakes.
      rewrite <- Htake in Htakes. apply Htakes; lia.
    - left. apply take_ge. lia. }
  exists r. unfold _get_repo at 1. by rewrite Hr.
Qed.

(** X5, [_get_tree_pair].  For a directory that is a subrepo root, not yet
    in the trie but below a known one, resolution returns the handle that the
    factory gives for that directory, as the factory gave it; the pair is the
    working tree of that handle and the managed tree built on it, found under
    the handle's own root; and the factory call for the directory is the last
    one made. *)
Theorem subrepo_root_tree_pair (p : path) self prefix repo :
  _subrepos_trie self !! p = None →
  longest_prefix (_subrepos_trie self) p = Some (prefix, repo) →
  _is_dvc_repo self p = true →
  (_get_repo p self).1 = Some (repo_factory self p)
  ∧ (_get_tree_pair p self).1
    = (tree (repo_factory self p), Some (new_DvcTree (repo_factory self p)))
  ∧ _dvctrees (_get_tree_pair p self).2 !! root_dir (repo_factory self p)
    = Some (new_DvcTree (repo_factory self p))
  ∧ last (factory_calls (_get_repo p self).2) = Some p.
Proof.
  intros Hp Hpre Hsub.
  destruct (_get_repo_subrepo_root p self prefix repo Hp Hpre Hsub)
    as (Hrepo & Hdvc & Hlast).
  split; [done|]. unfold _get_tree_pair.
  destruct (_get_repo p self) as [found self1]. simpl in *. subst found. simpl.
  by rewrite Hdvc.
Qed.

(** X6, [_get_repo] and [_get_tree_pair].  Resolution finds no repo exactly
    when the trie has no handle for the path or any of its ancestors; then
    the instance is left as it is and the tree pair is that of the main
    repo. *)
Theorem resolution_outside (p : path) self :
  ((_get_repo p self).1 = None ↔ ∀ q, q `prefix_of` p → _subrepos_trie self !! q = None)
  ∧ ((_get_repo p self).1 = None →
     _get_repo p self = (None, self)
     ∧ _get_tree_pair p self
       = ((tree (_main_repo self), _dvctrees self !! root_dir (_main_repo self)), self)).
Proof.
  assert ((∀ q, q `prefix_of` p → _subrepos_trie self !! q = None) →
          _get_repo p self = (None, self)) as Hout.
  { intros Hnone. unfold _get_repo. rewrite Hnone by done.
    assert (longest_prefix (_subrepos_trie self) p = None) as ->; [|done].
    apply first_hit_None. intros q Hq. by apply Hnone, elem_of_candidates. }
  assert ((_get_repo p self).1 = None →
          ∀ q, q `prefix_of` p → _subrepos_trie self !! q = None) as Hin.
  { unfold _get_repo.
    destruct (_subrepos_trie self !! p) as [r|] eqn:Hp; simpl; [done|].
    destruct (longest_prefix (_subrepos_trie self) p) as [[prefix repo]|] eqn:Hpre; simpl.
    - rewrite reverse_cons. intros Hnone.
      destruct (_update_last (reverse (takewhile (λ q, negb (bool_decide (q = prefix)))
                  (parents p))) p repo self) as [r Hr]. congruence.
    - intros _ q Hq. apply first_hit_None with (q := q) in Hpre; [done|].
      by apply elem_of_candidates. }
  split; [split; [done|]|].
  - intros Hnone. by rewrite (Hout Hnone).
  - intros Hnone. pose proof (Hin Hnone) as Hall. split; [by apply Hout|].
    unfold _get_tree_pair. by rewrite (Hout Hall).
Qed.

(** ** What every method leaves of the instance *)

(** A relation between instances that resolution respects is respected by
    every method: the instance changes nowhere else. *)
Section KeptBy.

Context (R : RepoTree → RepoTree → Prop).
Hypothesis R_refl : ∀ self, R self self.
Hypothesis R_trans : ∀ self1 self2 self3, R self1 self2 → R self2 self3 → R self1 self3.
Hypothesis R_get_repo : ∀ p self, R self (_get_repo p self).2.

Lemma kept_ret {A} (a : A) : kept R (ret a).
Proof. intros self. apply R_refl. Qed.

Lemma kept_raise {A} e : kept R (raise (A:=A) e).
Proof. intros self. apply R_refl. Qed.

Lemma kept_out_of_fuel {A} : kept R (out_of_fuel (A:=A)).
Proof. intros self. apply R_refl. Qed.

Lemma kept_emit ev : kept R (emit ev).
Proof. intros self. apply R_refl. Qed.

Lemma kept_get_self : kept R get_self.
Proof. intros self. apply R_refl. Qed.

Lemma kept_bind {A B} (m : M A) (k : A → M B) :
  kept R m → (∀ a, kept R (k a)) → kept R (bind m k).
Proof.
  intros Hm Hk self. specialize (Hm self). unfold bind.
  destruct (m self) as [[t self1] [a| |]]; [|done..].
  specialize (Hk a self1). destruct (k a self1) as [[t2 self2] o2].
  by eapply R_trans.
Qed.

Lemma kept_get_repo p : kept R (lift (_get_repo p)).
Proof.
  intros self. unfold lift. pose proof (R_get_repo p self) as Hkeep.
  by destruct (_get_repo p self).
Qed.

Lemma kept_get_tree_pair p : kept R (lift (_get_tree_pair p)).
Proof.
  intros self. unfold lift, _get_tree_pair. pose proof (R_get_repo p self) as Hkeep.
  by destruct (_get_repo p self).
Qed.

Lemma kept_for_each {A S} (xs : list A) (body : A → S → M S) :
  (∀ x s, kept R (body x s)) → ∀ s, kept R (for_each xs body s).
Proof.
  intros Hbody. induction xs as [|x xs IH]; intros s; simpl.
  - apply kept_ret.
  - apply kept_bind; [apply Hbody|apply IH].
Qed.

Lemma kept_yield_from walk : kept R (yield_from walk).
Proof.
  induction walk as [|root dirs files resume IH]; simpl.
  - apply kept_ret.
  - apply kept_bind; [apply kept_emit|intros _; apply IH].
Qed.

Ltac kept_step :=
  first
    [ apply kept_ret | apply kept_raise | apply kept_out_of_fuel
    | apply kept_emit | apply kept_get_self
    | apply kept_get_tree_pair | apply kept_get_repo | apply kept_yield_from
    | assumption
    | apply kept_bind; [|intros ?]
    | apply kept_for_each; intros ? ?
    | match goal with
      | |- kept R (match ?x with _ => _ end) => destruct x
      | |- kept R (call ?r) => destruct r
      | |- kept R (unpack1 ?l) => unfold unpack1
      | |- kept R (assert_ ?b) => unfold assert_
      | |- kept R (suppress_FileNotFoundError ?r) => unfold suppress_FileNotFoundError
      | |- kept R (yield ?l) => unfold yield
      | |- kept R (call_onerror ?o ?e ?t) => unfold call_onerror
      end ].

Lemma kept_exists p : kept R (exists_ p).
Proof. unfold exists_. repeat kept_step. Qed.

Lemma kept_isdir p : kept R (isdir_ p).
Proof. unfold isdir_. repeat kept_step. Qed.

Lemma kept_isfile p : kept R (isfile_ p).
Proof. unfold isfile_. repeat kept_step. Qed.

Lemma kept_isdvc p : kept R (isdvc p).
Proof. unfold isdvc. repeat kept_step. Qed.

Lemma kept_isexec p : kept R (isexec p).
Proof. unfold isexec. repeat kept_step. Qed.

Lemma kept_stat p : kept R (stat p).
Proof. unfold stat. repeat kept_step. Qed.

Lemma kept_metadata p : kept R (metadata p).
Proof. unfold metadata. repeat kept_step. Qed.

Lemma kept_info p : kept R (info p).
Proof. unfold info. repeat kept_step. Qed.

Lemma kept_open p : kept R (open_ p).
Proof. unfold open_. repeat kept_step. Qed.

Lemma kept_dvc_walk fuel : ∀ walk, kept R (_dvc_walk fuel walk).
Proof.
  induction fuel as [|fuel IH]; intros walk; simpl; [apply kept_out_of_fuel|].
  repeat kept_step; apply IH.
Qed.

Lemma kept_walk_merge fuel :
  ∀ repo_walk dvc_walk dvcfiles, kept R (_walk fuel repo_walk dvc_walk dvcfiles).
Proof.
  induction fuel as [|fuel IH]; intros repo_walk dvc_walk dvcfiles; simpl;
    [apply kept_out_of_fuel|].
  repeat kept_step; first [apply IH | apply kept_dvc_walk].
Qed.

Lemma kept_subrepo_walk fuel dir_path dvcfiles :
  kept R (_subrepo_walk fuel dir_path dvcfiles).
Proof.
  unfold _subrepo_walk, _subrepo_walk_with. repeat kept_step. apply kept_walk_merge.
Qed.

Lemma kept_walk fuel top topdown onerror dvcfiles follow_subrepos :
  kept R (walk fuel top topdown onerror dvcfiles follow_subrepos).
Proof.
  unfold walk.
  repeat kept_step; first [apply kept_exists | apply kept_isdir | apply kept_walk_merge].
Qed.

End KeptBy.

Lemma settled_refl self : settled self self.
Proof. by repeat split. Qed.

Lemma settled_trans self1 self2 self3 :
  settled self1 self2 → settled self2 self3 → settled self1 self3.
Proof.
  intros [Hc1 H1] [Hc2 H2]. split; [by eapply same_config_trans|].
  intros Hoff. destruct (H1 Hoff) as (Hcalls1 & Hdvc1 & Hmain1).
  destruct Hc1 as (_ & _ & Htrav).
  destruct H2 as (Hcalls2 & Hdvc2 & Hmain2); [congruence|].
  repeat split; [congruence|congruence|auto].
Qed.

Lemma settled_get_repo p self : settled self (_get_repo p self).2.
Proof.
  unfold _get_repo.
  destruct (_subrepos_trie self !! p) as [r|] eqn:Hp; simpl; [apply settled_refl|].
  destruct (longest_prefix (_subrepos_trie self) p) as [[prefix repo]|] eqn:Hpre;
    simpl; [|apply settled_refl].
  set (dirs := reverse (p :: takewhile (λ q, negb (bool_decide (q = prefix))) (parents p))).
  destruct (_update_factory_calls dirs repo self) as (Hcalls & Hconf & _ & Hplain).
  split; [done|]. intros Hoff.
  assert (∀ d, _is_dvc_repo self d = false) as Hnone.
  { intros d. unfold _is_dvc_repo. by rewrite Hoff. }
  destruct Hplain as [Hdvc Hmaps]; [by apply Forall_forall|].
  split; [|split; [done|]].
  - rewrite Hcalls, List_filter_none; [apply app_nil_r|done].
  - intros Hmain q r Hq. destruct Hconf as (_ & -> & _).
    destruct (decide (q ∈ dirs)) as [Hin|Hnotin].
    + rewrite (Hmaps q Hin) in Hq. injection Hq as <-.
      unfold longest_prefix in Hpre. apply first_hit_Some in Hpre as [_ Hknown].
      by eapply Hmain.
    + rewrite _update_other in Hq by done. by eapply Hmain.
Qed.

Lemma settled_walk fuel top topdown onerror dvcfiles follow_subrepos :
  kept settled (walk fuel top topdown onerror dvcfiles follow_subrepos).
Proof. apply kept_walk; [apply settled_refl|apply settled_trans|apply settled_get_repo]. Qed.

(** X3, subrepo traversal disabled.  On an instance that does not traverse
    subrepos, no method calls the factory or adds a managed tree, and none
    changes the configuration: this holds for [exists], [isdir], [isfile],
    [isdvc], [isexec], [stat], [metadata], [info], [open] and for the walk,
    whatever its [follow_subrepos] argument says. *)
Theorem no_discovery_when_disabled (self : RepoTree) (p : path) :
  _traverse_subrepos self = false →
  undisturbed self (self_of (exists_ p self))
  ∧ undisturbed self (self_of (isdir_ p self))
  ∧ undisturbed self (self_of (isfile_ p self))
  ∧ undisturbed self (self_of (isdvc p self))
  ∧ undisturbed self (self_of (isexec p self))
  ∧ undisturbed self (self_of (stat p self))
  ∧ undisturbed self (self_of (metadata p self))
  ∧ undisturbed self (self_of (info p self))
  ∧ undisturbed self (self_of (open_ p self))
  ∧ ∀ fuel topdown onerror dvcfiles follow_subrepos,
      undisturbed self
        (self_of (walk fuel p topdown onerror dvcfiles follow_subrepos self))
      ∧ same_config self
          (self_of (walk fuel p topdown onerror dvcfiles follow_subrepos self)).
Proof.
  intros Hoff.
  assert (∀ A (m : M A), kept settled m → undisturbed self (self_of (m self))) as Hdone.
  { intros A m Hm. destruct (Hm self) as [_ Hquiet].
    destruct (Hquiet Hoff) as (? & ? & _). by split. }
  pose proof settled_refl as Hr. pose proof settled_trans as Ht.
  pose proof settled_get_repo as Hg.
  split; [apply Hdone, (kept_exists settled Hr Ht Hg)|].
  split; [apply Hdone, (kept_isdir settled Hr Ht Hg)|].
  split; [apply Hdone, (kept_isfile settled Hr Ht Hg)|].
  split; [apply Hdone, (kept_isdvc settled Hr Ht Hg)|].
  split; [apply Hdone, (kept_isexec settled Hr Ht Hg)|].
  split; [apply Hdone, (kept_stat settled Hr Ht Hg)|].
  split; [apply Hdone, (kept_metadata settled Hr Ht Hg)|].
  split; [apply Hdone, (kept_info settled Hr Ht Hg)|].
  split; [apply Hdone, (kept_open settled Hr Ht Hg)|].
  intros fuel topdown onerror dvcfiles follow_subrepos.
  split; [apply Hdone, (kept_walk settled Hr Ht Hg)|].
  by destruct (kept_walk settled Hr Ht Hg fuel p topdown onerror dvcfiles
                 follow_subrepos self) as [Hconf _].
Qed.

Lemma only_main_init repo subrepos factory : only_main (__init__ repo subrepos factory).
Proof.
  intros q r. unfold __init__. simpl.
  by intros [_ <-]%lookup_singleton_Some.
Qed.

Lemma _get_repo_found (p : path) self r :
  (_get_repo p self).1 = Some r → _subrepos_trie (_get_repo p self).2 !! p = Some r.
Proof.
  unfold _get_repo.
  destruct (_subrepos_trie self !! p) as [r'|] eqn:Hp; simpl; [congruence|].
  by destruct (longest_prefix (_subrepos_trie self) p) as [[prefix repo]|].
Qed.

(** X4, subrepo traversal disabled.  On an instance built without subrepo
    traversal, after any run of a method that goes through resolution only
    (all the methods above do), every path gets the tree pair of the main
    repo: its working tree, and its managed tree when the repo has a
    [dvc_dir]. *)
Theorem main_pair_when_disabled repo factory {A} (m : M A) (p : path) :
  kept settled m →
  (_get_tree_pair p (self_of (m (__init__ repo false factory)))).1
  = (tree repo,
     match dvc_dir repo with
     | Some _ => Some (new_DvcTree repo)
     | None => None
     end).
Proof.
  intros Hm.
  pose proof (Hm (__init__ repo false factory)) as Hrun.
  set (self := self_of (m (__init__ repo false factory))) in *.
  pose proof (settled_trans _ _ _ Hrun (settled_get_repo p self)) as [Hconf Hquiet].
  destruct Hquiet as (_ & Hdvc & Hmain); [done|].
  specialize (Hmain (only_main_init repo false factory)).
  destruct Hconf as (_ & Hrepo & _). simpl in Hrepo, Hdvc.
  unfold _get_tree_pair.
  pose proof (_get_repo_found p self) as Hfound.
  destruct (_get_repo p self) as [found self']. simpl in *.
  assert (default (_main_repo self') found = repo) as ->.
  { destruct found as [r|]; simpl; [|done].
    rewrite <- Hrepo. eapply Hmain, Hfound. done. }
  rewrite Hdvc. f_equal.
  destruct (dvc_dir repo); [apply lookup_singleton_eq|apply lookup_empty].
Qed.

(** X16, the root of the main repo.  The constructor records the main repo
    at its root, and no run of a method that keeps the entries of the trie
    (all the methods do) takes it away: resolving the root afterwards is an
    exact hit on the main repo that changes nothing. *)
Theorem main_root_resolves repo subrepos factory {A} (m : M A) :
  keeps_trie m →
  _get_repo (root_dir repo) (self_of (m (__init__ repo subrepos factory)))
  = (Some repo, self_of (m (__init__ repo subrepos factory))).
Proof.
  intros Hm. unfold _get_repo.
  rewrite (Hm (__init__ repo subrepos factory) (root_dir repo) repo); [done|].
  apply lookup_singleton_eq.
Qed.

(** ** Kind and existence of a path, together *)

Lemma S_ISDIR_not_S_ISREG mode : S_ISDIR mode = true → S_ISREG mode = false.
Proof.
  unfold S_ISDIR, S_ISREG. intros Hdir%Z.eqb_eq. by rewrite Hdir.
Qed.

Lemma managed_side_run (tree : BaseTree) managed p (meta : Metadata) (k : bool)
    (self : RepoTree) :
  dvc_metadata managed p = Ok meta →
  (do out <- unpack1 (outs meta);
   assert_ (bool_decide (length (outs meta) = 1));;
   if tree_exists tree (out_path_info out) then ret false else ret k) self
  = managed_answer tree managed p (λ _, k) self.
Proof.
  intros Hmeta. unfold managed_answer. rewrite Hmeta.
  destruct (outs meta) as [|out [|out' os]]; simpl; try done.
  unfold bind. simpl. by destruct (tree_exists tree (out_path_info out)).
Qed.

Lemma exists_run (p : path) (self self' : RepoTree) tree dvc_tree :
  _get_tree_pair p self = ((tree, dvc_tree), self') →
  exists_ p self
  = match dvc_tree with
    | None => ([], self', Done (tree_exists tree p))
    | Some managed =>
        if tree_exists tree p then ([], self', Done true)
        else managed_answer tree managed p (λ _, true) self'
    end.
Proof.
  intros Hpair. unfold exists_. unfold bind at 1. unfold lift. rewrite Hpair.
  destruct dvc_tree as [managed|]; [|done].
  destruct (tree_exists tree p); [done|].
  destruct (dvc_metadata managed p) as [meta|e] eqn:Hmeta.
  - rewrite (managed_side_run tree managed p meta true self' Hmeta).
    by destruct (managed_answer tree managed p (λ _, true) self') as [[??]?].
  - unfold managed_answer. rewrite Hmeta. by destruct e.
Qed.

Lemma isdir_run (p : path) (self self' : RepoTree) tree dvc_tree :
  _get_tree_pair p self = ((tree, dvc_tree), self') →
  isdir_ p self = kind_answer tree dvc_tree p S_ISDIR isdir self'.
Proof.
  intros Hpair. unfold isdir_, kind_answer. unfold bind at 1. unfold lift. rewrite Hpair.
  destruct (tree_stat tree p) as [st|e]; [done|].
  destruct (negb (is_OSError e || bool_decide (e = ValueError))); [done|].
  destruct dvc_tree as [managed|]; [|done].
  destruct (dvc_metadata managed p) as [meta|e'] eqn:Hmeta.
  - rewrite (managed_side_run tree managed p meta (isdir meta) self' Hmeta).
    unfold managed_answer. rewrite Hmeta.
    by destruct (outs meta) as [|out [|??]]; [|destruct (tree_exists _ _)|].
  - unfold managed_answer. rewrite Hmeta. by destruct e'.
Qed.

Lemma isfile_run (p : path) (self self' : RepoTree) tree dvc_tree :
  _get_tree_pair p self = ((tree, dvc_tree), self') →
  isfile_ p self = kind_answer tree dvc_tree p S_ISREG isfile self'.
Proof.
  intros Hpair. unfold isfile_, kind_answer. unfold bind at 1. unfold lift. rewrite Hpair.
  destruct (tree_stat tree p) as [st|e]; [done|].
  destruct (negb (is_OSError e || bool_decide (e = ValueError))); [done|].
  destruct dvc_tree as [managed|]; [|done].
  destruct (dvc_metadata managed p) as [meta|e'] eqn:Hmeta.
  - rewrite (managed_side_run tree managed p meta (isfile meta) self' Hmeta).
    unfold managed_answer. rewrite Hmeta.
    by destruct (outs meta) as [|out [|??]]; [|destruct (tree_exists _ _)|].
  - unfold managed_answer. rewrite Hmeta. by destruct e'.
Qed.

(** X7, [isdir] and [isfile].  No path is both: when one of the two returns
    [True], the other returns [False]. *)
Theorem isdir_isfile_exclusive (p : path) (self : RepoTree) :
  (outcome_of (isdir_ p self) = Done true → outcome_of (isfile_ p self) = Done false)
  ∧ (outcome_of (isfile_ p self) = Done true → outcome_of (isdir_ p self) = Done false).
Proof.
  destruct (_get_tree_pair p self) as [[tree dvc_tree] self'] eqn:Hpair.
  rewrite (isdir_run _ _ _ _ _ Hpair), (isfile_run _ _ _ _ _ Hpair).
  unfold kind_answer, managed_answer.
  destruct (tree_stat tree p) as [st|e]; simpl.
  { destruct (S_ISDIR (st_mode st)) eqn:Hdir.
    - rewrite (S_ISDIR_not_S_ISREG _ Hdir). by split.
    - split; [done|]. by intros _. }
  destruct (negb (is_OSError e || bool_decide (e = ValueError))); [done|].
  destruct dvc_tree as [managed|]; [|done].
  destruct (dvc_metadata managed p) as [meta|[]]; try done.
  destruct (outs meta) as [|out [|out' os]]; try done. simpl.
  destruct (tree_exists tree (out_path_info out)); [done|].
  unfold isfile. by destruct (isdir meta).
Qed.

(** X8, shadowing.  A path that the working tree does not have, whose
    managed metadata names one output, is hidden when the working tree has
    that output's own path: [exists], [isdir] and [isfile] all return
    [False] for it. *)
Theorem shadowed_path_hidden (p : path) (self self' : RepoTree) tree managed meta out e :
  _get_tree_pair p self = ((tree, Some managed), self') →
  tree_exists tree p = false →
  tree_stat tree p = Err e →
  is_OSError e || bool_decide (e = ValueError) = true →
  dvc_metadata managed p = Ok meta →
  outs meta = [out] →
  tree_exists tree (out_path_info out) = true →
  exists_ p self = ([], self', Done false)
  ∧ isdir_ p self = ([], self', Done false)
  ∧ isfile_ p self = ([], self', Done false).
Proof.
  intros Hpair Hex Hstat He Hmeta Houts Hout.
  rewrite (exists_run _ _ _ _ _ Hpair), (isdir_run _ _ _ _ _ Hpair),
    (isfile_run _ _ _ _ _ Hpair).
  unfold kind_answer, managed_answer.
  by rewrite Hex, Hstat, He, Hmeta, Houts, Hout.
Qed.

(** X9, kind implies existence.  Where a successful [stat] of the working
    tree means that the working tree has the path, a path for which [isdir]
    or [isfile] returns [True] is one for which [exists] returns [True]. *)
Theorem kind_implies_exists (p : path) (self self' : RepoTree) tree dvc_tree :
  _get_tree_pair p self = ((tree, dvc_tree), self') →
  (∀ st, tree_stat tree p = Ok st → tree_exists tree p = true) →
  outcome_of (isdir_ p self) = Done true ∨ outcome_of (isfile_ p self) = Done true →
  exists_ p self = ([], self', Done true).
Proof.
  intros Hpair Hstat.
  rewrite (exists_run _ _ _ _ _ Hpair), (isdir_run _ _ _ _ _ Hpair),
    (isfile_run _ _ _ _ _ Hpair).
  unfold kind_answer, managed_answer.
  destruct (tree_stat tree p) as [st|e]; simpl.
  { rewrite (Hstat st eq_refl). intros _. by destruct dvc_tree. }
  destruct (negb (is_OSError e || bool_decide (e = ValueError))); [by intros [?|?]|].
  destruct dvc_tree as [managed|]; [|by intros [?|?]].
  destruct (tree_exists tree p); [done|].
  destruct (dvc_metadata managed p) as [meta|[]]; try by intros [?|?].
  destruct (outs meta) as [|out [|out' os]]; try by intros [?|?].
  simpl. destruct (tree_exists tree (out_path_info out)); [by intros [?|?]|done].
Qed.

(** ** Metadata *)

(** X10, [metadata].  It raises [FileNotFoundError] exactly when the
    working tree's [stat] reports not-found and there is no managed metadata
    either (no managed tree, or its lookup reports not-found).  When only the
    [stat] succeeds, the record is made up from it: no outputs, the
    directory and executable bits of the mode, and the repo the path resolves
    to, which is the one whose working tree was asked. *)
Theorem metadata_not_found (p : path) (self self' : RepoTree) wtree dvc_tree :
  _get_tree_pair p self = ((wtree, dvc_tree), self') →
  (outcome_of (metadata p self) = Raise FileNotFoundError ↔
     tree_stat wtree p = Err FileNotFoundError
     ∧ ∀ managed, dvc_tree = Some managed → dvc_metadata managed p = Err FileNotFoundError)
  ∧ (∀ st, tree_stat wtree p = Ok st →
       (∀ managed, dvc_tree = Some managed → dvc_metadata managed p = Err FileNotFoundError) →
       ∃ repo, tree repo = wtree
               ∧ metadata p self
                 = ([], self', Done {| path_info := p; meta_repo := Some repo;
                                       isdir := S_ISDIR (st_mode st);
                                       is_exec := mode_is_exec (st_mode st);
                                       outs := [] |})).
Proof.
  intros Hpair. split.
  - unfold metadata. unfold bind at 1. unfold lift. rewrite Hpair.
    unfold bind, suppress_FileNotFoundError, lift, get_self, ret, raise.
    destruct dvc_tree as [managed|];
      [destruct (dvc_metadata managed p) as [meta|e] eqn:Hmeta; [|destruct e]|];
      simpl;
      (destruct (tree_stat wtree p) as [st|e'] eqn:Hstat; [|destruct e']); simpl;
      try (destruct (_get_repo p self') as [found self'']; simpl);
      (split; [intros Hraise; try discriminate Hraise
              |intros [Hs Hnone]; try discriminate Hs;
               try (specialize (Hnone managed eq_refl); congruence)]);
      try (split; [done|]; intros managed' Hm; try discriminate Hm;
           injection Hm as <-; done);
      try done.
  - intros st Hstat Hnone.
    pose proof (_get_repo_again p self) as Hagain.
    unfold _get_tree_pair in Hpair.
    destruct (_get_repo p self) as [found self1] eqn:Hfirst. simpl in Hagain.
    injection Hpair as Htree Hdvc <-.
    exists (default (_main_repo self1) found). split; [done|].
    unfold metadata. unfold bind at 1. unfold lift, _get_tree_pair.
    rewrite Hfirst, Htree, Hdvc.
    assert ((match dvc_tree with
             | Some dvc_tree0 => suppress_FileNotFoundError (dvc_metadata dvc_tree0 p)
             | None => ret None
             end) self1 = ([], self1, Done None)) as Hmanaged.
    { destruct dvc_tree as [managed|]; [|done]. by rewrite (Hnone managed eq_refl). }
    erewrite bind_Done by exact Hmanaged.
    unfold suppress_FileNotFoundError. rewrite Hstat.
    erewrite bind_Done by reflexivity. cbn [trace_of self_of outcome_of fst snd app].
    unfold bind, lift, get_self, ret. rewrite Hagain. simpl. done.
Qed.

(** X11, [isdir] and [metadata].  A path for which [isdir] returns [True]
    never gets a metadata record that says it is no directory. *)
Theorem isdir_implies_metadata_isdir (p : path) (self : RepoTree) m :
  outcome_of (isdir_ p self) = Done true →
  outcome_of (metadata p self) = Done m →
  isdir m = true.
Proof.
  destruct (_get_tree_pair p self) as [[tree dvc_tree] self'] eqn:Hpair.
  rewrite (isdir_run _ _ _ _ _ Hpair). unfold kind_answer, managed_answer.
  unfold metadata. unfold bind at 1. unfold lift. rewrite Hpair.
  destruct (tree_stat tree p) as [st|e] eqn:Hstat.
  - simpl. intros [= Hdir].
    destruct dvc_tree as [managed|].
    + unfold bind, suppress_FileNotFoundError.
      destruct (dvc_metadata managed p) as [meta|[]]; simpl; try done.
      * intros [= <-]. simpl. by rewrite Hdir, orb_true_r.
      * destruct (_get_repo p self'). simpl. intros [= <-]. simpl. by rewrite Hdir.
    + unfold bind, suppress_FileNotFoundError. simpl.
      destruct (_get_repo p self'). simpl. intros [= <-]. simpl. by rewrite Hdir.
  - simpl.
    destruct (negb (is_OSError e || bool_decide (e = ValueError))); [done|].
    destruct dvc_tree as [managed|]; [|done].
    destruct (dvc_metadata managed p) as [meta|[]]; try done.
    destruct (outs meta) as [|out [|out' os]]; try done. simpl.
    destruct (tree_exists tree (out_path_info out)); [done|].
    intros [= Hdir]. unfold bind, suppress_FileNotFoundError. simpl.
    destruct e; simpl; try done. intros [= <-]. simpl. by rewrite Hdir.
Qed.

(** ** The walk: what passes through and what cannot happen *)


Lemma bind_run {A B} (m : M A) (k : A → M B) self :
  bind m k self
  = match outcome_of (m self) with
    | Done a =>
        (trace_of (m self) ++ trace_of (k a (self_of (m self))),
         self_of (k a (self_of (m self))), outcome_of (k a (self_of (m self))))
    | Raise e => (trace_of (m self), self_of (m self), Raise e)
    | OutOfFuel => (trace_of (m self), self_of (m self), OutOfFuel)
    end.
Proof.
  unfold bind. destruct (m self) as [[t s] [a| |]]; [|done..].
  cbn [trace_of self_of outcome_of fst snd]. by destruct (k a s) as [[??]?].
Qed.

Lemma passes_through_loop fuel :
  (∀ g self, passes_through g self (_dvc_walk fuel (Some g) self)
             ∧ (length (levels g) < fuel →
                ∃ w, outcome_of (_dvc_walk fuel (Some g) self) = Done w)) →
  ∀ (dirs : list string) g self,
    passes_through g self (for_each dirs (λ _ walk, _dvc_walk fuel walk) (Some g) self)
    ∧ (length (levels g) < fuel →
       ∃ w, outcome_of (for_each dirs (λ _ walk, _dvc_walk fuel walk) (Some g) self)
            = Done w).
Proof.
  intros Hone. induction dirs as [|d dirs IH]; intros g self; cbn [for_each].
  { split; [|eauto]. split; [done|]. exists []. split; [done|]. simpl. eauto. }
  rewrite bind_run.
  destruct (Hone g self) as [(Hself & ls & Htrace & Hout) Hends].
  destruct (outcome_of (_dvc_walk fuel (Some g) self)) as [w| |] eqn:Ho; [|done|].
  - destruct Hout as (h & -> & Hlevels). rewrite Hself.
    destruct (IH h self) as [(Hself' & ls' & Htrace' & Hout') Hends'].
    split.
    + split; [done|]. exists (ls ++ ls'). simpl.
      split; [by rewrite Htrace, Htrace', fmap_app|].
      destruct (outcome_of (for_each dirs _ (Some h) self)) as [w'| |]; [|done|].
      * destruct Hout' as (h' & -> & Hlevels'). exists h'. split; [done|].
        by rewrite Hlevels, Hlevels', app_assoc.
      * rewrite Hlevels. by apply prefix_app.
    + intros Hfuel. simpl. apply Hends'.
      rewrite Hlevels, length_app in Hfuel. lia.
  - split.
    + split; [done|]. exists ls. by split.
    + intros Hfuel. destruct (Hends Hfuel) as [w Hw]. congruence.
Qed.

Lemma passes_through_dvc_walk fuel : ∀ g self,
  passes_through g self (_dvc_walk fuel (Some g) self)
  ∧ (length (levels g) < fuel →
     ∃ w, outcome_of (_dvc_walk fuel (Some g) self) = Done w).
Proof.
  induction fuel as [|fuel IH]; intros g self.
  { split; [|lia]. split; [done|]. exists []. split; [done|]. simpl. apply prefix_nil. }
  cbn [_dvc_walk]. destruct g as [|root dirs files resume].
  { split; [|eauto]. split; [done|]. exists []. split; [done|]. simpl. eauto. }
  erewrite (bind_Done (yield _)) by reflexivity.
  destruct (passes_through_loop fuel IH dirs (resume dirs) self)
    as [(Hself & ls & Htrace & Hout) Hends].
  split.
  - split; [done|]. exists ((root, dirs, files) :: ls). cbn [trace_of outcome_of fst snd].
    split; [by rewrite Htrace|].
    destruct (outcome_of (for_each dirs _ (Some (resume dirs)) self)) as [w| |]; [|done|].
    + destruct Hout as (h & -> & Hlevels). exists h. split; [done|].
      simpl. by rewrite Hlevels.
    + simpl. by apply prefix_cons.
  - intros Hfuel. cbn [outcome_of snd]. apply Hends. simpl in Hfuel. lia.
Qed.

(** X12, [_dvc_walk].  The levels it yields are the first levels of the
    managed tree's walk, unchanged and in order; it raises nothing and
    leaves the instance alone.  With more fuel than the walk has levels it
    ends, and the generator then holds exactly the levels not yet yielded. *)
Theorem _dvc_walk_passes_through fuel (g : gen) (self : RepoTree) :
  (∃ ls, trace_of (_dvc_walk fuel (Some g) self) = Yield <$> ls
         ∧ ls `prefix_of` levels g)
  ∧ self_of (_dvc_walk fuel (Some g) self) = self
  ∧ no_raise (outcome_of (_dvc_walk fuel (Some g) self))
  ∧ (length (levels g) < fuel →
     ∃ ls h, _dvc_walk fuel (Some g) self = (Yield <$> ls, self, Done (Some h))
             ∧ levels g = ls ++ levels h).
Proof.
  destruct (passes_through_dvc_walk fuel g self) as [(Hself & ls & Htrace & Hout) Hends].
  split; [|split; [done|split]].
  - exists ls. split; [done|].
    destruct (outcome_of (_dvc_walk fuel (Some g) self)) as [w| |]; [|done..].
    destruct Hout as (h & _ & ->). by apply prefix_app_r.
  - by destruct (outcome_of (_dvc_walk fuel (Some g) self)).
  - intros Hfuel. destruct (Hends Hfuel) as [w Hw]. rewrite Hw in Hout.
    destruct Hout as (h & -> & Hlevels). exists ls, h. split; [|done].
    rewrite (run_eta (_dvc_walk fuel (Some g) self)). by rewrite Htrace, Hself, Hw.
Qed.






(** X14, the directories of a level.  The list of directories that a step
    of the merge yields holds every child directory of the managed side and
    of the working side, and each of them once, also when both sides have
    it. *)
Theorem _walk_level_dirs fuel repo_root repo_dirs repo_fnames repo_resume
    dvc_walk dvc_dirs dvc_fnames dvc_resume dvcfiles (self : RepoTree) :
  next_dvc dvc_walk = Some (dvc_dirs, dvc_fnames, dvc_resume) →
  ∃ dirs files rest,
    trace_of (_walk (S fuel) (Step repo_root repo_dirs repo_fnames repo_resume)
                dvc_walk dvcfiles self)
      = Yield (repo_root, dirs, files) :: rest
    ∧ NoDup dirs
    ∧ ∀ d, d ∈ dirs ↔ d ∈ dvc_dirs ∨ d ∈ repo_dirs.
Proof.
  intros Hnext. cbn [_walk]. rewrite Hnext.
  erewrite (bind_Done (yield _)) by reflexivity.
  do 3 eexists. split; [reflexivity|].
  assert (∀ d, d ∈ list_of_set (list_intersection dvc_dirs repo_dirs)
               ↔ d ∈ dvc_dirs ∧ d ∈ repo_dirs) as Hshared.
  { intros d. by rewrite elem_of_list_of_set, list_elem_of_intersection. }
  assert (∀ d, d ∈ list_of_set (list_difference dvc_dirs repo_dirs)
               ↔ d ∈ dvc_dirs ∧ d ∉ repo_dirs) as Hdvc.
  { intros d. by rewrite elem_of_list_of_set, list_elem_of_difference. }
  assert (∀ d, d ∈ list_of_set (list_difference repo_dirs dvc_dirs)
               ↔ d ∈ repo_dirs ∧ d ∉ dvc_dirs) as Hrepo.
  { intros d. by rewrite elem_of_list_of_set, list_elem_of_difference. }
  split.
  - apply NoDup_app. split; [apply NoDup_list_of_set|]. split.
    + intros d Hd%Hshared [Hd'%Hdvc|Hd'%Hrepo]%elem_of_app; tauto.
    + apply NoDup_app. split; [apply NoDup_list_of_set|].
      split; [|apply NoDup_list_of_set].
      intros d Hd%Hdvc Hd'%Hrepo. tauto.
  - intros d. rewrite !elem_of_app, Hshared, Hdvc, Hrepo.
    destruct (decide (d ∈ dvc_dirs)), (decide (d ∈ repo_dirs)); tauto.
Qed.

(** X15, the walk without the managed side.  When the repo of the start
    path has no managed tree, or the start path is on disk and is itself a
    managed output, a start path that passes the two checks is walked by the
    merge over the working tree's walk alone: the managed tree's walk is not
    asked for, and the working tree's walk skips subrepos as
    [follow_subrepos] says, or as the instance says when it is not given. *)
Theorem walk_working_only fuel top onerror dvcfiles follow_subrepos
    (self self' : RepoTree) wtree dvc_tree :
  _get_tree_pair top self = ((wtree, dvc_tree), self') →
  outcome_of (exists_ top self) = Done true →
  outcome_of (isdir_ top self') = Done true →
  (dvc_tree = None
   ∨ ∃ managed, dvc_tree = Some managed
                ∧ tree_exists wtree top = true ∧ dvc_isdvc managed top = true) →
  walk fuel top true onerror dvcfiles follow_subrepos self
  = (_walk fuel
       (tree_walk wtree top
          match follow_subrepos with
          | Some follow => negb follow
          | None => negb (_traverse_subrepos self')
          end)
       None dvcfiles;; ret tt) self'.
Proof.
  intros Hpair Hex Hdir Hmanaged.
  destruct (exists_effects top self) as [Ht Hs]. rewrite Hpair in Hs. simpl in Hs.
  destruct (isdir_effects top self') as [Ht' Hs'].
  pose proof (_get_tree_pair_again top self) as Hagain.
  rewrite Hpair in Hagain. simpl in Hagain. rewrite Hagain in Hs'. simpl in Hs'.
  unfold walk.
  erewrite bind_Done by reflexivity.
  erewrite bind_Done by (rewrite (run_eta (exists_ top self)), Ht, Hs, Hex; reflexivity).
  cbn [negb app trace_of self_of outcome_of fst snd].
  erewrite bind_Done by (rewrite (run_eta (isdir_ top self')), Ht', Hs', Hdir; reflexivity).
  cbn [negb app trace_of self_of outcome_of fst snd].
  erewrite bind_Done by reflexivity.
  erewrite bind_Done by (unfold lift; rewrite Hagain; reflexivity).
  cbn [app trace_of self_of outcome_of fst snd].
  destruct Hmanaged as [->|(managed & -> & -> & ->)]; cbn [andb];
    symmetry; apply run_eta.
Qed.

End RepoTree.

(** * The model at work *)

(** The world of [World], with its collaborators plugged in. *)
#[local] Abbreviation W_get_repo := (_get_repo World.new_DvcTree World.DVC_DIR).
#[local] Abbreviation W_get_tree_pair := (_get_tree_pair World.new_DvcTree World.DVC_DIR).
#[local] Abbreviation W_exists := (exists_ World.new_DvcTree World.DVC_DIR).
#[local] Abbreviation W_isdir := (isdir_ World.new_DvcTree World.DVC_DIR).
#[local] Abbreviation W_isfile := (isfile_ World.new_DvcTree World.DVC_DIR).
#[local] Abbreviation W_metadata :=
  (metadata World.new_DvcTree World.DVC_DIR World.mode_is_exec).
#[local] Abbreviation W_info := (info World.new_DvcTree World.DVC_DIR).
#[local] Abbreviation W_open := (open_ World.new_DvcTree World.DVC_DIR).
#[local] Abbreviation W_dvc_walk := _dvc_walk.
#[local] Abbreviation W_walk_merge :=
  (_walk World.new_DvcTree World.DVC_DIR World.is_valid_filename World.DVCIGNORE_FILE
     World.list_of_set).
#[local] Abbreviation W_walk :=
  (walk World.new_DvcTree World.DVC_DIR World.is_valid_filename World.DVCIGNORE_FILE
     World.list_of_set).
#[local] Abbreviation managed_main := (World.new_DvcTree World.main_repo).

Local Open Scope string_scope.

Ltac run := vm_compute; reflexivity.

(** The constructor builds the two instances of [World]. *)
Lemma init_self0 :
  __init__ World.new_DvcTree World.main_repo true World.factory = World.self0
  ∧ __init__ World.new_DvcTree World.git_repo false World.factory = World.git_self0.
Proof. split; reflexivity. Qed.

(** The enumeration of [World] is an admissible one. *)
Lemma World_list_of_set_perm l : World.list_of_set l ≡ₚ remove_dups l.
Proof. reflexivity. Qed.

(** The first scenario of the spec, with more around it: the levels of the
    walk of [/r], subrepo included. *)
Example walk_r :
  yielded (trace_of (W_walk 10 ["r"] true None false None World.self0)) =
    [ (["r"], ["both"; "data"; "out"; "sub"; "work"], ["out"; "a.txt"; "odd"]);
      (["r"; "both"], [], ["m.bin"; "b.txt"]);
      (["r"; "data"], [], ["x.bin"; "dvc.yaml"]);
      (["r"; "out"], [], []);
      (["r"; "sub"], [".dvc"], ["s.bin"; "inner.txt"]);
      (["r"; "sub"; ".dvc"], [], []);
      (["r"; "work"], [], ["w.txt"]) ]
  ∧ outcome_of (W_walk 10 ["r"] true None false None World.self0) = Done tt.
Proof. split; run. Qed.

(** ** Resolution *)

(** The second scenario of the spec: the first resolution of a path below
    [/r/sub] discovers the subrepo with one factory call; a sibling resolved
    later finds [/r/sub] in the trie and calls the factory no more. *)
Example resolve_sibling :
  let first := W_get_repo ["r"; "sub"; "inner.txt"] World.self0 in
  let second := W_get_repo ["r"; "sub"; "other.txt"] first.2 in
  factory_calls first.2 = [["r"; "sub"]]
  ∧ factory_calls second.2 = [["r"; "sub"]]
  ∧ (root_dir <$> first.1) = Some ["r"; "sub"]
  ∧ (repo_id <$> second.1) = (repo_id <$> first.1).
Proof. repeat split; run. Qed.

Lemma _get_repo_idempotent_witness :
  _subrepos_trie World.self0 !! ["r"] = Some World.main_repo
  ∧ _subrepos_trie (W_get_repo ["r"; "sub"; "inner.txt"] World.self0).2 !! ["r"]
    = Some World.main_repo.
Proof.
  split; [reflexivity|].
  apply (proj1 (proj2 (proj2 (_get_repo_idempotent World.new_DvcTree World.DVC_DIR
                         World.is_valid_filename World.DVCIGNORE_FILE World.mode_is_exec
                         World.list_of_set ["r"; "sub"; "inner.txt"] World.self0)))).
  reflexivity.
Defined.

(** ** Existence, kind and metadata *)

(** [/r/data/x.bin] is only in the managed layer and its output [/r/data] is
    not on disk: it exists through the managed tree. *)
Lemma exists_shadowing_witness :
  W_get_tree_pair ["r"; "data"; "x.bin"] World.self0
    = ((World.work_tree, Some managed_main),
       (W_get_tree_pair ["r"; "data"; "x.bin"] World.self0).2)
  ∧ tree_exists World.work_tree ["r"; "data"; "x.bin"] = false
  ∧ (outcome_of (W_exists ["r"; "data"; "x.bin"] World.self0) = Done true ↔
       ∃ meta out, dvc_metadata managed_main ["r"; "data"; "x.bin"] = Ok meta
                   ∧ outs meta = [out]
                   ∧ tree_exists World.work_tree (out_path_info out) = false).
Proof.
  assert (W_get_tree_pair ["r"; "data"; "x.bin"] World.self0
    = ((World.work_tree, Some managed_main),
       (W_get_tree_pair ["r"; "data"; "x.bin"] World.self0).2)) as Hpair by reflexivity.
  split; [exact Hpair|]. split; [run|].
  destruct (exists_shadowing _ _ _ _ _ _ _ Hpair) as [_ Hmanaged].
  apply (Hmanaged managed_main); [run|reflexivity].
Defined.

(** The third scenario of the spec: [/r/out] is a directory on disk and a
    single-file output in the managed layer. *)
Example shadow_scenario :
  outcome_of (W_isdir ["r"; "out"] World.self0) = Done true
  ∧ outcome_of (W_exists ["r"; "out"] World.self0) = Done true
  ∧ dvc_metadata managed_main ["r"; "out"] = Ok (World.meta ["r"; "out"] false [["r"; "out"]]).
Proof. split; [run|]. split; [run|reflexivity]. Qed.

Lemma metadata_isdir_witness :
  W_get_tree_pair ["r"; "out"] World.self0
    = ((World.work_tree, Some managed_main), (W_get_tree_pair ["r"; "out"] World.self0).2)
  ∧ dvc_metadata managed_main ["r"; "out"] = Ok (World.meta ["r"; "out"] false [["r"; "out"]])
  ∧ tree_stat World.work_tree ["r"; "out"] = Ok {| st_mode := 16877 |}
  ∧ ∃ m, W_metadata ["r"; "out"] World.self0
           = ([], (W_get_tree_pair ["r"; "out"] World.self0).2, Done m)
         ∧ isdir m = false || S_ISDIR 16877
         ∧ is_exec m = false
         ∧ outs m = [ {| out_path_info := ["r"; "out"] |} ].
Proof.
  assert (W_get_tree_pair ["r"; "out"] World.self0
    = ((World.work_tree, Some managed_main), (W_get_tree_pair ["r"; "out"] World.self0).2))
    as Hpair by reflexivity.
  assert (dvc_metadata managed_main ["r"; "out"]
          = Ok (World.meta ["r"; "out"] false [["r"; "out"]])) as Hmeta by reflexivity.
  split; [exact Hpair|]. split; [exact Hmeta|]. split; [run|].
  destruct (metadata_isdir _ _ World.mode_is_exec _ _ _ _ _ _ Hpair Hmeta) as [Hstat _].
  apply (Hstat {| st_mode := 16877 |}). run.
Defined.

(** C9 as stated fails: [/r/odd] is a file on disk whose managed metadata
    names no output at all, and [exists], [isdir] and [isfile] all return. *)
Lemma outs_count_ignored_on_disk :
  (W_get_tree_pair ["r"; "odd"] World.self0).1 = (World.work_tree, Some managed_main)
  ∧ dvc_metadata managed_main ["r"; "odd"] = Ok (World.meta ["r"; "odd"] false [])
  ∧ length (outs (World.meta ["r"; "odd"] false [])) = 0
  ∧ outcome_of (W_exists ["r"; "odd"] World.self0) = Done true
  ∧ outcome_of (W_isdir ["r"; "odd"] World.self0) = Done false
  ∧ outcome_of (W_isfile ["r"; "odd"] World.self0) = Done true.
Proof. split; [reflexivity|]. split; [reflexivity|]. repeat split; run. Qed.

(** [/r/odd2] has the same metadata and is not on disk. *)
Lemma outs_cardinality_fatal_witness :
  W_get_tree_pair ["r"; "odd2"] World.self0
    = ((World.work_tree, Some managed_main), (W_get_tree_pair ["r"; "odd2"] World.self0).2)
  ∧ dvc_metadata managed_main ["r"; "odd2"] = Ok (World.meta ["r"; "odd2"] false [])
  ∧ length (outs (World.meta ["r"; "odd2"] false [])) ≠ 1
  ∧ tree_exists World.work_tree ["r"; "odd2"] = false
  ∧ tree_stat World.work_tree ["r"; "odd2"] = Err FileNotFoundError
  ∧ W_exists ["r"; "odd2"] World.self0
    = ([], (W_get_tree_pair ["r"; "odd2"] World.self0).2, Raise ValueError)
  ∧ W_isdir ["r"; "odd2"] World.self0
    = ([], (W_get_tree_pair ["r"; "odd2"] World.self0).2, Raise ValueError)
  ∧ W_isfile ["r"; "odd2"] World.self0
    = ([], (W_get_tree_pair ["r"; "odd2"] World.self0).2, Raise ValueError).
Proof.
  assert (W_get_tree_pair ["r"; "odd2"] World.self0
    = ((World.work_tree, Some managed_main), (W_get_tree_pair ["r"; "odd2"] World.self0).2))
    as Hpair by reflexivity.
  assert (dvc_metadata managed_main ["r"; "odd2"] = Ok (World.meta ["r"; "odd2"] false []))
    as Hmeta by reflexivity.
  assert (length (outs (World.meta ["r"; "odd2"] false [])) ≠ 1) as Hlen by (simpl; lia).
  assert (tree_stat World.work_tree ["r"; "odd2"] = Err FileNotFoundError) as Hstat by run.
  destruct (outs_cardinality_fatal _ _ _ _ _ _ _ _ Hpair Hmeta Hlen) as [Hexists Hkind].
  split; [exact Hpair|]. split; [exact Hmeta|]. split; [exact Hlen|].
  split; [run|]. split; [exact Hstat|].
  split; [apply Hexists; run|].
  apply (Hkind FileNotFoundError Hstat). reflexivity.
Defined.

(** C7 fails on a repo without a managed layer: for a path that the working
    tree of a plain git repo does not have, [info] ends in [AttributeError],
    where [open] on the same path ends in [FileNotFoundError]. *)
Lemma info_git_repo_missing_path :
  (W_get_tree_pair ["r"; "missing"] World.git_self0).1 = (World.work_tree, None)
  ∧ tree_info World.work_tree ["r"; "missing"] = Err FileNotFoundError
  ∧ outcome_of (W_info ["r"; "missing"] World.git_self0) = Raise AttributeError
  ∧ outcome_of (W_open ["r"; "missing"] World.git_self0) = Raise FileNotFoundError.
Proof. split; [reflexivity|]. repeat split; run. Qed.

(** ** The walk *)

(** A start path that is nowhere, and one that is a file. *)
Lemma walk_invalid_root_witness :
  outcome_of (W_exists ["r"; "nope"] World.self0) = Done false
  ∧ W_walk 10 ["r"; "nope"] true (Some "cb") false None World.self0
    = ([OnError "cb" FileNotFoundError ["r"; "nope"]],
       (W_get_tree_pair ["r"; "nope"] World.self0).2, Done tt)
  ∧ outcome_of (W_exists ["r"; "a.txt"] World.self0) = Done true
  ∧ outcome_of (W_isdir ["r"; "a.txt"] (self_of (W_exists ["r"; "a.txt"] World.self0)))
    = Done false
  ∧ W_walk 10 ["r"; "a.txt"] true None false None World.self0
    = ([], (W_get_tree_pair ["r"; "a.txt"] World.self0).2, Done tt).
Proof.
  assert (outcome_of (W_exists ["r"; "nope"] World.self0) = Done false) as Hnope by run.
  assert (outcome_of (W_exists ["r"; "a.txt"] World.self0) = Done true) as Hfile by run.
  assert (outcome_of (W_isdir ["r"; "a.txt"] (self_of (W_exists ["r"; "a.txt"] World.self0)))
          = Done false) as Hnodir by run.
  split; [exact Hnope|]. split.
  { apply (proj1 (walk_invalid_root World.new_DvcTree World.DVC_DIR World.is_valid_filename
                    World.DVCIGNORE_FILE World.list_of_set 10 ["r"; "nope"] (Some "cb")
                    false None World.self0) Hnope). }
  split; [exact Hfile|]. split; [exact Hnodir|].
  apply (proj2 (walk_invalid_root World.new_DvcTree World.DVC_DIR World.is_valid_filename
                  World.DVCIGNORE_FILE World.list_of_set 10 ["r"; "a.txt"] None
                  false None World.self0) Hfile Hnodir).
Defined.

(** The walk of [/r] yields levels, so it was a top-down one. *)
Lemma walk_bottom_up_rejected_witness :
  yielded (trace_of (W_walk 10 ["r"] true None false None World.self0)) ≠ []
  ∧ true = true.
Proof.
  assert (yielded (trace_of (W_walk 10 ["r"] true None false None World.self0)) ≠ [])
    as Hyields by (vm_compute; discriminate).
  split; [exact Hyields|].
  apply (proj2 (walk_bottom_up_rejected World.new_DvcTree World.DVC_DIR
                  World.is_valid_filename World.DVCIGNORE_FILE World.list_of_set
                  10 ["r"] None false None World.self0) true Hyields).
Defined.

(** [/r/data] is not on disk and the working tree walks nothing from it:
    its walk is the managed tree's. *)
Lemma walk_managed_only_witness :
  W_get_tree_pair ["r"; "data"] World.self0
    = ((World.work_tree, Some managed_main), (W_get_tree_pair ["r"; "data"] World.self0).2)
  ∧ outcome_of (W_exists ["r"; "data"] World.self0) = Done true
  ∧ outcome_of (W_isdir ["r"; "data"] (W_get_tree_pair ["r"; "data"] World.self0).2)
    = Done true
  ∧ tree_exists World.work_tree ["r"; "data"] = false
  ∧ tree_walk World.work_tree ["r"; "data"]
      (negb (_traverse_subrepos (W_get_tree_pair ["r"; "data"] World.self0).2)) = Stop
  ∧ W_walk 5 ["r"; "data"] true None false None World.self0
    = (Yield <$> levels (dvc_walk managed_main ["r"; "data"]),
       (W_get_tree_pair ["r"; "data"] World.self0).2, Done tt)
  ∧ levels (dvc_walk managed_main ["r"; "data"])
    = [ (["r"; "data"], [], ["x.bin"; "dvc.yaml"]) ].
Proof.
  assert (W_get_tree_pair ["r"; "data"] World.self0
    = ((World.work_tree, Some managed_main), (W_get_tree_pair ["r"; "data"] World.self0).2))
    as Hpair by reflexivity.
  assert (outcome_of (W_exists ["r"; "data"] World.self0) = Done true) as Hex by run.
  assert (outcome_of (W_isdir ["r"; "data"] (W_get_tree_pair ["r"; "data"] World.self0).2)
          = Done true) as Hdir by run.
  assert (tree_exists World.work_tree ["r"; "data"] = false) as Hno by run.
  assert (tree_walk World.work_tree ["r"; "data"]
            (negb (_traverse_subrepos (W_get_tree_pair ["r"; "data"] World.self0).2)) = Stop)
    as Hstop by run.
  split; [exact Hpair|]. split; [exact Hex|]. split; [exact Hdir|].
  split; [exact Hno|]. split; [exact Hstop|]. split; [|run].
  apply (proj2 (walk_managed_only World.new_DvcTree World.DVC_DIR World.is_valid_filename
                  World.DVCIGNORE_FILE World.list_of_set 4 ["r"; "data"] None false None
                  World.self0 _ World.work_tree managed_main Hpair Hex Hdir Hno) Hstop).
Defined.

(** C5 as stated fails: on a working tree that hides [/r/both] from [exists]
    but walks it when asked to, the repo of [/r/both] has a managed tree, the
    start path exists (through the managed layer) and the working tree does
    not report it as existing; the walk yields the one level of the managed
    tree's walk and then a second level, the merged one. *)
Lemma walk_managed_then_merged :
  (W_get_tree_pair ["r"; "both"] World.hiding_self0).1
    = (World.hiding_tree, Some (World.new_DvcTree World.hiding_repo))
  ∧ outcome_of (W_exists ["r"; "both"] World.hiding_self0) = Done true
  ∧ outcome_of (W_isdir ["r"; "both"] World.hiding_self0) = Done true
  ∧ tree_exists World.hiding_tree ["r"; "both"] = false
  ∧ levels (dvc_walk (World.new_DvcTree World.hiding_repo) ["r"; "both"])
    = [ (["r"; "both"], [], ["b.txt"; "m.bin"]) ]
  ∧ yielded (trace_of (W_walk 10 ["r"; "both"] true None false None World.hiding_self0))
    = [ (["r"; "both"], [], ["b.txt"; "m.bin"]);
        (["r"; "both"], [], ["m.bin"; "b.txt"]) ]
  ∧ outcome_of (W_walk 10 ["r"; "both"] true None false None World.hiding_self0) = Done tt.
Proof.
  split; [reflexivity|]. repeat split; run.
Qed.

(** C3 as stated fails: in the walk of [/r], without [dvcfiles], the level of
    the managed-only directory [/r/data] lists [dvc.yaml], a pipeline file by
    its name, while the level of [/r] itself has lost its [dvc.yaml]. *)
Lemma managed_only_level_unfiltered :
  World.is_valid_filename "dvc.yaml" = true
  ∧ yielded (trace_of (W_walk 10 ["r"] true None false None World.self0)) !! 2
    = Some (["r"; "data"], [], ["x.bin"; "dvc.yaml"])
  ∧ "dvc.yaml" ∈ ["x.bin"; "dvc.yaml"]
  ∧ yielded (trace_of (W_walk 10 ["r"] true None false None World.self0)) !! 0
    = Some (["r"], ["both"; "data"; "out"; "sub"; "work"], ["out"; "a.txt"; "odd"]).
Proof.
  split; [run|]. split; [run|]. split; [|run].
  apply list_elem_of_further, list_elem_of_here.
Qed.

(** The level of [/r]: the generators of the two trees at their first step. *)
Lemma _walk_level_files_witness :
  (∀ l, World.list_of_set l ≡ₚ remove_dups l)
  ∧ next_dvc (Some (Step ["r"] ["both"; "data"] ["out"; "a.txt"] (λ _, Stop)))
    = Some (["both"; "data"], ["out"; "a.txt"], λ dirs, Some Stop)
  ∧ ∃ dirs files rest,
      trace_of (W_walk_merge 1
                  (Step ["r"] ["both"; "work"] ["a.txt"; "dvc.yaml"; ".dvcignore"] (λ _, Stop))
                  (Some (Step ["r"] ["both"; "data"] ["out"; "a.txt"] (λ _, Stop)))
                  false World.self0)
        = Yield (["r"], dirs, files) :: rest
      ∧ NoDup files
      ∧ (∀ f, f ∈ files ↔
              (f ∈ ["out"; "a.txt"] ∨ f ∈ ["a.txt"; "dvc.yaml"; ".dvcignore"])
              ∧ (false = true
                 ∨ (World.is_valid_filename f = false ∧ f ≠ World.DVCIGNORE_FILE)))
      ∧ (false = true →
         ∀ f, f ∈ files ↔ f ∈ ["out"; "a.txt"] ∨ f ∈ ["a.txt"; "dvc.yaml"; ".dvcignore"]).
Proof.
  split; [exact World_list_of_set_perm|]. split; [reflexivity|].
  apply (proj1 (_walk_level_files World.new_DvcTree World.DVC_DIR World.is_valid_filename
                  World.DVCIGNORE_FILE World.list_of_set World_list_of_set_perm
                  0 ["r"] ["both"; "work"] ["a.txt"; "dvc.yaml"; ".dvcignore"] (λ _, Stop)
                  (Some (Step ["r"] ["both"; "data"] ["out"; "a.txt"] (λ _, Stop)))
                  ["both"; "data"] ["out"; "a.txt"] (λ dirs, Some Stop)
                  false World.self0 eq_refl)).
Defined.


(** * More of the model at work *)

(** ** Discovery *)

Lemma _update_factory_calls_witness :
  Forall (λ d, _is_dvc_repo World.DVC_DIR World.self0 d = false)
    [["r"; "work"]; ["r"; "work"; "w.txt"]]
  ∧ _dvctrees (_update World.new_DvcTree World.DVC_DIR
                 [["r"; "work"]; ["r"; "work"; "w.txt"]] World.main_repo World.self0)
    = _dvctrees World.self0
  ∧ ∀ d, d ∈ [["r"; "work"]; ["r"; "work"; "w.txt"]] →
         _subrepos_trie (_update World.new_DvcTree World.DVC_DIR
                           [["r"; "work"]; ["r"; "work"; "w.txt"]] World.main_repo
                           World.self0) !! d
         = Some World.main_repo.
Proof.
  assert (Forall (λ d, _is_dvc_repo World.DVC_DIR World.self0 d = false)
            [["r"; "work"]; ["r"; "work"; "w.txt"]]) as Hplain
    by (repeat constructor; run).
  split; [exact Hplain|].
  apply (proj2 (proj2 (proj2 (_update_factory_calls World.new_DvcTree World.DVC_DIR
                                [["r"; "work"]; ["r"; "work"; "w.txt"]]
                                World.main_repo World.self0))) Hplain).
Defined.

Lemma discovery_fills_path_witness :
  _subrepos_trie World.self0 !! ["r"; "sub"; "inner.txt"] = None
  ∧ longest_prefix (_subrepos_trie World.self0) ["r"; "sub"; "inner.txt"]
    = Some (["r"], World.main_repo)
  ∧ (List.length ["r"] ≤ 2)%nat
  ∧ ∃ r, W_get_repo ["r"; "sub"]
           (W_get_repo ["r"; "sub"; "inner.txt"] World.self0).2
         = (Some r, (W_get_repo ["r"; "sub"; "inner.txt"] World.self0).2).
Proof.
  assert (_subrepos_trie World.self0 !! ["r"; "sub"; "inner.txt"] = None) as Hp
    by reflexivity.
  assert (longest_prefix (_subrepos_trie World.self0) ["r"; "sub"; "inner.txt"]
          = Some (["r"], World.main_repo)) as Hpre by reflexivity.
  assert ((List.length ["r"] ≤ 2)%nat) as Hn by (simpl; lia).
  split; [exact Hp|]. split; [exact Hpre|]. split; [exact Hn|].
  apply (proj2 (discovery_fills_path World.new_DvcTree World.DVC_DIR
                  ["r"; "sub"; "inner.txt"] World.self0 ["r"] World.main_repo Hp Hpre)
           2 Hn).
Defined.

Lemma subrepo_root_tree_pair_witness :
  _subrepos_trie World.self0 !! ["r"; "sub"] = None
  ∧ longest_prefix (_subrepos_trie World.self0) ["r"; "sub"] = Some (["r"], World.main_repo)
  ∧ _is_dvc_repo World.DVC_DIR World.self0 ["r"; "sub"] = true
  ∧ (W_get_repo ["r"; "sub"] World.self0).1 = Some (World.factory ["r"; "sub"])
  ∧ (W_get_tree_pair ["r"; "sub"] World.self0).1
    = (tree (World.factory ["r"; "sub"]),
       Some (World.new_DvcTree (World.factory ["r"; "sub"])))
  ∧ _dvctrees (W_get_tree_pair ["r"; "sub"] World.self0).2
      !! root_dir (World.factory ["r"; "sub"])
    = Some (World.new_DvcTree (World.factory ["r"; "sub"]))
  ∧ last (factory_calls (W_get_repo ["r"; "sub"] World.self0).2) = Some ["r"; "sub"].
Proof.
  assert (_subrepos_trie World.self0 !! ["r"; "sub"] = None) as Hp by reflexivity.
  assert (longest_prefix (_subrepos_trie World.self0) ["r"; "sub"]
          = Some (["r"], World.main_repo)) as Hpre by reflexivity.
  assert (_is_dvc_repo World.DVC_DIR World.self0 ["r"; "sub"] = true) as Hsub by run.
  split; [exact Hp|]. split; [exact Hpre|]. split; [exact Hsub|].
  apply (subrepo_root_tree_pair World.new_DvcTree World.DVC_DIR ["r"; "sub"] World.self0
           ["r"] World.main_repo Hp Hpre Hsub).
Defined.

Lemma resolution_outside_witness :
  (W_get_repo ["elsewhere"; "x"] World.self0).1 = None
  ∧ W_get_repo ["elsewhere"; "x"] World.self0 = (None, World.self0)
  ∧ W_get_tree_pair ["elsewhere"; "x"] World.self0
    = ((tree (_main_repo World.self0),
        _dvctrees World.self0 !! root_dir (_main_repo World.self0)), World.self0).
Proof.
  assert ((W_get_repo ["elsewhere"; "x"] World.self0).1 = None) as Hnone by reflexivity.
  split; [exact Hnone|].
  apply (proj2 (resolution_outside World.new_DvcTree World.DVC_DIR ["elsewhere"; "x"]
                  World.self0) Hnone).
Defined.

(** ** Traversal disabled *)

Lemma no_discovery_when_disabled_witness :
  _traverse_subrepos World.git_self0 = false
  ∧ ∀ fuel topdown onerror dvcfiles follow_subrepos,
      undisturbed World.git_self0
        (self_of (W_walk fuel ["r"] topdown onerror dvcfiles follow_subrepos
                    World.git_self0))
      ∧ same_config World.git_self0
          (self_of (W_walk fuel ["r"] topdown onerror dvcfiles follow_subrepos
                      World.git_self0)).
Proof.
  assert (_traverse_subrepos World.git_self0 = false) as Hoff by reflexivity.
  split; [exact Hoff|].
  destruct (no_discovery_when_disabled World.new_DvcTree World.DVC_DIR
              World.is_valid_filename World.DVCIGNORE_FILE World.mode_is_exec
              World.list_of_set World.git_self0 ["r"] Hoff)
    as (_ & _ & _ & _ & _ & _ & _ & _ & _ & Hwalk).
  exact Hwalk.
Defined.

Lemma main_pair_when_disabled_witness :
  kept settled (W_walk 10 ["r"] true None false (Some true))
  ∧ (W_get_tree_pair ["r"; "sub"; "inner.txt"]
       (self_of (W_walk 10 ["r"] true None false (Some true)
                   (__init__ World.new_DvcTree World.main_repo false World.factory)))).1
    = (World.work_tree, Some managed_main).
Proof.
  assert (kept settled (W_walk 10 ["r"] true None false (Some true))) as Hkept
    by apply settled_walk.
  split; [exact Hkept|].
  apply (main_pair_when_disabled World.new_DvcTree World.DVC_DIR World.main_repo
           World.factory (W_walk 10 ["r"] true None false (Some true))
           ["r"; "sub"; "inner.txt"] Hkept).
Defined.

Lemma main_root_resolves_witness :
  keeps_trie (W_walk 10 ["r"] true None false None)
  ∧ W_get_repo ["r"]
      (self_of (W_walk 10 ["r"] true None false None
                  (__init__ World.new_DvcTree World.main_repo true World.factory)))
    = (Some World.main_repo,
       self_of (W_walk 10 ["r"] true None false None
                  (__init__ World.new_DvcTree World.main_repo true World.factory))).
Proof.
  assert (keeps_trie (W_walk 10 ["r"] true None false None)) as Hkeeps
    by apply keeps_walk.
  split; [exact Hkeeps|].
  apply (main_root_resolves World.new_DvcTree World.DVC_DIR World.main_repo true
           World.factory (W_walk 10 ["r"] true None false None) Hkeeps).
Defined.

(** ** Kind, existence and metadata *)

Lemma isdir_isfile_exclusive_witness :
  outcome_of (W_isdir ["r"; "out"] World.self0) = Done true
  ∧ outcome_of (W_isfile ["r"; "out"] World.self0) = Done false.
Proof.
  assert (outcome_of (W_isdir ["r"; "out"] World.self0) = Done true) as Hdir by run.
  split; [exact Hdir|].
  apply (proj1 (isdir_isfile_exclusive World.new_DvcTree World.DVC_DIR ["r"; "out"]
                  World.self0) Hdir).
Defined.

(** [/r/both/m.bin] is only in the managed layer, but its output [/r/both]
    is on disk. *)
Lemma shadowed_path_hidden_witness :
  W_get_tree_pair ["r"; "both"; "m.bin"] World.self0
    = ((World.work_tree, Some managed_main),
       (W_get_tree_pair ["r"; "both"; "m.bin"] World.self0).2)
  ∧ tree_exists World.work_tree ["r"; "both"; "m.bin"] = false
  ∧ tree_stat World.work_tree ["r"; "both"; "m.bin"] = Err FileNotFoundError
  ∧ dvc_metadata managed_main ["r"; "both"; "m.bin"]
    = Ok (World.meta ["r"; "both"; "m.bin"] false [["r"; "both"]])
  ∧ tree_exists World.work_tree ["r"; "both"] = true
  ∧ W_exists ["r"; "both"; "m.bin"] World.self0
    = ([], (W_get_tree_pair ["r"; "both"; "m.bin"] World.self0).2, Done false)
  ∧ W_isdir ["r"; "both"; "m.bin"] World.self0
    = ([], (W_get_tree_pair ["r"; "both"; "m.bin"] World.self0).2, Done false)
  ∧ W_isfile ["r"; "both"; "m.bin"] World.self0
    = ([], (W_get_tree_pair ["r"; "both"; "m.bin"] World.self0).2, Done false).
Proof.
  assert (W_get_tree_pair ["r"; "both"; "m.bin"] World.self0
    = ((World.work_tree, Some managed_main),
       (W_get_tree_pair ["r"; "both"; "m.bin"] World.self0).2)) as Hpair by reflexivity.
  assert (tree_exists World.work_tree ["r"; "both"; "m.bin"] = false) as Hex by run.
  assert (tree_stat World.work_tree ["r"; "both"; "m.bin"] = Err FileNotFoundError)
    as Hstat by run.
  assert (dvc_metadata managed_main ["r"; "both"; "m.bin"]
          = Ok (World.meta ["r"; "both"; "m.bin"] false [["r"; "both"]])) as Hmeta
    by reflexivity.
  assert (tree_exists World.work_tree ["r"; "both"] = true) as Hout by run.
  split; [exact Hpair|]. split; [exact Hex|]. split; [exact Hstat|].
  split; [exact Hmeta|]. split; [exact Hout|].
  apply (shadowed_path_hidden World.new_DvcTree World.DVC_DIR ["r"; "both"; "m.bin"]
           World.self0 _ World.work_tree managed_main
           (World.meta ["r"; "both"; "m.bin"] false [["r"; "both"]])
           {| out_path_info := ["r"; "both"] |} FileNotFoundError
           Hpair Hex Hstat eq_refl Hmeta eq_refl Hout).
Defined.

Lemma kind_implies_exists_witness :
  W_get_tree_pair ["r"; "a.txt"] World.self0
    = ((World.work_tree, Some managed_main), (W_get_tree_pair ["r"; "a.txt"] World.self0).2)
  ∧ (∀ st, tree_stat World.work_tree ["r"; "a.txt"] = Ok st →
           tree_exists World.work_tree ["r"; "a.txt"] = true)
  ∧ outcome_of (W_isfile ["r"; "a.txt"] World.self0) = Done true
  ∧ W_exists ["r"; "a.txt"] World.self0
    = ([], (W_get_tree_pair ["r"; "a.txt"] World.self0).2, Done true).
Proof.
  assert (W_get_tree_pair ["r"; "a.txt"] World.self0
    = ((World.work_tree, Some managed_main),
       (W_get_tree_pair ["r"; "a.txt"] World.self0).2)) as Hpair by reflexivity.
  assert (∀ st, tree_stat World.work_tree ["r"; "a.txt"] = Ok st →
                tree_exists World.work_tree ["r"; "a.txt"] = true) as Hstat
    by (intros st _; run).
  assert (outcome_of (W_isfile ["r"; "a.txt"] World.self0) = Done true) as Hfile by run.
  split; [exact Hpair|]. split; [exact Hstat|]. split; [exact Hfile|].
  apply (kind_implies_exists World.new_DvcTree World.DVC_DIR ["r"; "a.txt"] World.self0 _
           World.work_tree (Some managed_main) Hpair Hstat (or_intror Hfile)).
Defined.

Lemma metadata_not_found_witness :
  W_get_tree_pair ["r"; "nope"] World.self0
    = ((World.work_tree, Some managed_main), (W_get_tree_pair ["r"; "nope"] World.self0).2)
  ∧ tree_stat World.work_tree ["r"; "nope"] = Err FileNotFoundError
  ∧ dvc_metadata managed_main ["r"; "nope"] = Err FileNotFoundError
  ∧ outcome_of (W_metadata ["r"; "nope"] World.self0) = Raise FileNotFoundError.
Proof.
  assert (W_get_tree_pair ["r"; "nope"] World.self0
    = ((World.work_tree, Some managed_main),
       (W_get_tree_pair ["r"; "nope"] World.self0).2)) as Hpair by reflexivity.
  assert (tree_stat World.work_tree ["r"; "nope"] = Err FileNotFoundError) as Hstat by run.
  assert (dvc_metadata managed_main ["r"; "nope"] = Err FileNotFoundError) as Hmeta
    by reflexivity.
  split; [exact Hpair|]. split; [exact Hstat|]. split; [exact Hmeta|].
  apply (proj1 (metadata_not_found World.new_DvcTree World.DVC_DIR World.mode_is_exec
                  ["r"; "nope"] World.self0 _ World.work_tree (Some managed_main) Hpair)).
  split; [exact Hstat|]. intros managed [= <-]. exact Hmeta.
Defined.

Lemma isdir_implies_metadata_isdir_witness :
  outcome_of (W_isdir ["r"; "out"] World.self0) = Done true
  ∧ outcome_of (W_metadata ["r"; "out"] World.self0)
    = Done {| path_info := ["r"; "out"]; meta_repo := None; isdir := true;
              is_exec := false; outs := [ {| out_path_info := ["r"; "out"] |} ] |}
  ∧ isdir {| path_info := ["r"; "out"]; meta_repo := None; isdir := true;
             is_exec := false; outs := [ {| out_path_info := ["r"; "out"] |} ] |} = true.
Proof.
  assert (outcome_of (W_isdir ["r"; "out"] World.self0) = Done true) as Hdir by run.
  assert (outcome_of (W_metadata ["r"; "out"] World.self0)
    = Done {| path_info := ["r"; "out"]; meta_repo := None; isdir := true;
              is_exec := false; outs := [ {| out_path_info := ["r"; "out"] |} ] |})
    as Hmeta by run.
  split; [exact Hdir|]. split; [exact Hmeta|].
  apply (isdir_implies_metadata_isdir World.new_DvcTree World.DVC_DIR World.mode_is_exec
           ["r"; "out"] World.self0 _ Hdir Hmeta).
Defined.

(** ** The walk *)

Lemma _dvc_walk_passes_through_witness :
  (List.length (levels (dvc_walk managed_main ["r"])) < 5)%nat
  ∧ ∃ ls h, _dvc_walk 5 (Some (dvc_walk managed_main ["r"])) World.self0
            = (Yield <$> ls, World.self0, Done (Some h))
            ∧ levels (dvc_walk managed_main ["r"]) = (ls ++ levels h)%list.
Proof.
  assert ((List.length (levels (dvc_walk managed_main ["r"])) < 5)%nat) as Hfuel
    by (vm_compute; lia).
  split; [exact Hfuel|].
  apply (proj2 (proj2 (proj2 (_dvc_walk_passes_through 5 (dvc_walk managed_main ["r"])
                                World.self0))) Hfuel).
Defined.


Lemma _walk_level_dirs_witness :
  (∀ l, World.list_of_set l ≡ₚ remove_dups l)
  ∧ next_dvc (Some (Step ["r"] ["both"; "data"] ["out"] (λ _, Stop)))
    = Some (["both"; "data"], ["out"], λ dirs, Some Stop)
  ∧ ∃ dirs files rest,
      trace_of (W_walk_merge 1
                  (Step ["r"] ["both"; "work"; "both"] ["a.txt"] (λ _, Stop))
                  (Some (Step ["r"] ["both"; "data"] ["out"] (λ _, Stop)))
                  false World.self0)
        = Yield (["r"], dirs, files) :: rest
      ∧ NoDup dirs
      ∧ ∀ d, d ∈ dirs ↔ d ∈ ["both"; "data"] ∨ d ∈ ["both"; "work"; "both"].
Proof.
  split; [exact World_list_of_set_perm|]. split; [reflexivity|].
  apply (_walk_level_dirs World.new_DvcTree World.DVC_DIR World.is_valid_filename
           World.DVCIGNORE_FILE World.list_of_set World_list_of_set_perm
           0 ["r"] ["both"; "work"; "both"] ["a.txt"] (λ _, Stop)
           (Some (Step ["r"] ["both"; "data"] ["out"] (λ _, Stop)))
           ["both"; "data"] ["out"] (λ dirs, Some Stop)
           false World.self0 eq_refl).
Defined.

(** The walk of [/r] in the plain git repo. *)
Lemma walk_working_only_witness :
  W_get_tree_pair ["r"] World.git_self0 = ((World.work_tree, None), World.git_self0)
  ∧ outcome_of (W_exists ["r"] World.git_self0) = Done true
  ∧ outcome_of (W_isdir ["r"] World.git_self0) = Done true
  ∧ W_walk 10 ["r"] true None false (Some true) World.git_self0
    = (W_walk_merge 10 (tree_walk World.work_tree ["r"] (negb true)) None false;; ret tt)
        World.git_self0.
Proof.
  assert (W_get_tree_pair ["r"] World.git_self0
          = ((World.work_tree, None), World.git_self0)) as Hpair by reflexivity.
  assert (outcome_of (W_exists ["r"] World.git_self0) = Done true) as Hex by run.
  assert (outcome_of (W_isdir ["r"] World.git_self0) = Done true) as Hdir by run.
  split; [exact Hpair|]. split; [exact Hex|]. split; [exact Hdir|].
  apply (walk_working_only World.new_DvcTree World.DVC_DIR World.is_valid_filename
           World.DVCIGNORE_FILE World.list_of_set 10 ["r"] None false (Some true)
           World.git_self0 World.git_self0 World.work_tree None Hpair Hex Hdir
           (or_introl eq_refl)).
Defined.

(** * Facts about reading and writing data files *)
Module SerializeFacts.

Import Serialize.

Section Facts.

Variable relpath : string → string.
Variable decode : list Byte.byte → option string.
Variable encode : string → list Byte.byte.
Variable D : Type.
Variable empty_dict : D.
Variable open_for_writing : option string → string → world → option exc.

#[local] Abbreviation load := (_load_data relpath decode D).
#[local] Abbreviation dump := (_dump_data encode D open_for_writing).
#[local] Abbreviation modify := (_modify_data relpath decode D empty_dict).





Lemma load_of_content path parser fs w content text :
  store_of w fs !! path = Some content →
  decode content = Some text →
  load path parser fs w
  = reraise_UnicodeDecodeError (new_EncodingError relpath path "utf-8") (parser text path).
Proof.
  intros Hfile Hdecode. unfold _load_data, read_text. by rewrite Hfile, Hdecode.
Qed.


(** X18, [_load_data] and its errors.  A missing file is [FileNotFound]; a
    file that does not decode, and a parser that raises
    [UnicodeDecodeError], both end in the [EncodingError] of the path and of
    ["utf-8"], with its message; whatever else the parser returns or raises
    is passed on as it is.  [UnicodeDecodeError] itself never comes out. *)
Theorem load_errors path parser fs w :
  load path parser fs w ≠ Raised UnicodeDecodeError
  ∧ (store_of w fs !! path = None → load path parser fs w = Raised (FileNotFound path))
  ∧ (∀ content, store_of w fs !! path = Some content →
       decode content = None
       ∨ (∃ text, decode content = Some text
                  ∧ parser text path = Raised UnicodeDecodeError) →
       load path parser fs w = Raised (new_EncodingError relpath path "utf-8"))
  ∧ (∀ content text, store_of w fs !! path = Some content →
       decode content = Some text →
       parser text path ≠ Raised UnicodeDecodeError →
       load path parser fs w = parser text path)
  ∧ new_EncodingError relpath path "utf-8"
    = ParseError {| pe_path := relpath path;
                    pe_encoding := Some "utf-8"%string;
                    pe_message := ("unable to read: '" ++ relpath path
                                   ++ "', is not valid utf-8")%string |}.
Proof.
  split; [|split; [|split; [|split]]].
  - unfold _load_data, read_text, new_EncodingError.
    destruct (store_of w fs !! path) as [content|]; [|done].
    destruct (decode content) as [text|]; [|done].
    by destruct (parser text path) as [d|[]].
  - intros Hfile. unfold _load_data. by rewrite Hfile.
  - intros content Hfile [Hdecode|(text & Hdecode & Hparser)].
    + unfold _load_data, read_text. by rewrite Hfile, Hdecode.
    + rewrite (load_of_content _ _ _ _ _ text Hfile Hdecode). by rewrite Hparser.
  - intros content text Hfile Hdecode Hparser.
    rewrite (load_of_content _ _ _ _ _ text Hfile Hdecode).
    by destruct (parser text path) as [d|[]].
  - reflexivity.
Qed.

(** X19, [_modify_data].  For a path that is not there the block starts from
    the empty dictionary and the parser is not asked.  When the load or the
    block raises, that exception comes out and nothing is written.  In
    every case the stores change only by what the dumper does. *)
Theorem modify_writes_through_dumper path parser dumper fs block w :
  (store_of w fs !! path = None →
     modify path parser dumper fs block w
     = match block empty_dict with
       | Returned data => dumper path data fs w
       | Raised e => (Raised e, w)
       end)
  ∧ (∀ e, is_Some (store_of w fs !! path) → load path parser fs w = Raised e →
          modify path parser dumper fs block w = (Raised e, w))
  ∧ (∀ data e, is_Some (store_of w fs !! path) → load path parser fs w = Returned data →
               block data = Raised e →
               modify path parser dumper fs block w = (Raised e, w))
  ∧ (((modify path parser dumper fs block w).2 = w
      ∧ ∃ e, (modify path parser dumper fs block w).1 = Raised e)
     ∨ ∃ data, modify path parser dumper fs block w = dumper path data fs w).
Proof.
  unfold _modify_data. split; [|split; [|split]].
  - intros Hfile. rewrite Hfile, bool_decide_eq_false_2; [done|]. by intros [? ?].
  - intros e Hfile Hload. by rewrite bool_decide_eq_true_2, Hload.
  - intros data e Hfile Hload Hblock. by rewrite bool_decide_eq_true_2, Hload, Hblock.
  - destruct (if bool_decide (is_Some (store_of w fs !! path))
              then load path parser fs w else Returned empty_dict) as [data|e].
    + destruct (block data) as [data'|e]; [right; eauto|left; eauto].
    + left. eauto.
Qed.


End Facts.

Local Open Scope string_scope.


Lemma load_errors_witness :
  store_of params_world None !! "missing.yaml" = None
  ∧ _load_data id latin_decode string "missing.yaml" (λ text _, Returned text) None
      params_world
    = Raised (FileNotFound "missing.yaml").
Proof.
  assert (store_of params_world None !! "missing.yaml" = None) as Hfile by reflexivity.
  split; [exact Hfile|].
  apply (proj1 (proj2 (load_errors id latin_decode string "missing.yaml"
                         (λ text _, Returned text) None params_world)) Hfile).
Defined.

Lemma modify_writes_through_dumper_witness :
  store_of params_world None !! "new.yaml" = None
  ∧ _modify_data id latin_decode string "" "new.yaml" (λ text _, Returned text)
      (λ p data fs',
         _dump_data latin_encode string flat_open_for_writing p data (λ d, (d, None)) fs')
      None (λ d, Returned (d ++ "lr: 3")) params_world
    = _dump_data latin_encode string flat_open_for_writing "new.yaml" "lr: 3"
        (λ d, (d, None)) None params_world.
Proof.
  assert (store_of params_world None !! "new.yaml" = None) as Hfile by reflexivity.
  split; [exact Hfile|].
  apply (proj1 (modify_writes_through_dumper id latin_decode string "" "new.yaml"
                  (λ text _, Returned text)
                  (λ p data fs',
                     _dump_data latin_encode string flat_open_for_writing p data
                       (λ d, (d, None)) fs')
                  None (λ d, Returned (d ++ "lr: 3")) params_world) Hfile).
Defined.


End SerializeFacts.
